(** * HW10.py: a contact directory with validated fields

    A shallow embedding of [HW10.py] (classes [Field], [Name], [Phone],
    [Birthday], [Record], [AddressBook], the [input_error] decorator and the
    command handlers) together with the parts of the Python runtime the
    program relies on: [str] as a sequence of Unicode code points, the
    backtracking matcher of [re], [int], and the [date] class of [datetime]
    with [strptime] / [strftime] for the one format the program uses. *)

From Stdlib Require Import String Ascii DecimalString.
From Stdlib Require Import Bool NArith ZArith Lia List.
Import ListNotations.

Local Open Scope N_scope.

(** ** Python strings *)

Module Py.

(** A Python [str] is a sequence of code points. *)
Definition char := N.
Definition str := list char.

Definition ch (a : ascii) : char := N_of_ascii a.

(** String literals of the program are written in UTF-8 in this file and
    decoded to code points. *)
Fixpoint utf8 (bs : list N) : str :=
  match bs with
  | [] => []
  | b :: r =>
      if b <? 128 then b :: utf8 r
      else if b <? 224 then
        match r with
        | b1 :: r1 => ((b - 192) * 64 + (b1 - 128)) :: utf8 r1
        | _ => []
        end
      else if b <? 240 then
        match r with
        | b1 :: b2 :: r2 =>
            ((b - 224) * 4096 + (b1 - 128) * 64 + (b2 - 128)) :: utf8 r2
        | _ => []
        end
      else
        match r with
        | b1 :: b2 :: b3 :: r3 =>
            ((b - 240) * 262144 + (b1 - 128) * 4096 + (b2 - 128) * 64
             + (b3 - 128)) :: utf8 r3
        | _ => []
        end
  end.

Definition u (s : string) : str :=
  utf8 (map N_of_ascii (list_ascii_of_string s)).

Fixpoint str_eqb (a b : str) : bool :=
  match a, b with
  | [], [] => true
  | x :: a', y :: b' => (x =? y) && str_eqb a' b'
  | _, _ => false
  end.

(** [sep.join(xs)] *)
Fixpoint join (sep : str) (xs : list str) : str :=
  match xs with
  | [] => []
  | [x] => x
  | x :: rest => x ++ sep ++ join sep rest
  end.

(** *** The Unicode decimal digits

    [\d] in a [str] pattern and [int] accept every character of category Nd.
    The characters of that category come in runs of ten, from the digit zero
    to the digit nine of a script; [nd_zeros] lists the zero of each run
    (Unicode 14.0, the database of CPython 3.11). *)
Definition nd_zeros : list N :=
  [ 0x30; 0x660; 0x6f0; 0x7c0; 0x966; 0x9e6; 0xa66; 0xae6; 0xb66; 0xbe6;
    0xc66; 0xce6; 0xd66; 0xde6; 0xe50; 0xed0; 0xf20; 0x1040; 0x1090; 0x17e0;
    0x1810; 0x1946; 0x19d0; 0x1a80; 0x1a90; 0x1b50; 0x1bb0; 0x1c40; 0x1c50;
    0xa620; 0xa8d0; 0xa900; 0xa9d0; 0xa9f0; 0xaa50; 0xabf0; 0xff10; 0x104a0;
    0x10d30; 0x11066; 0x110f0; 0x11136; 0x111d0; 0x112f0; 0x11450; 0x114d0;
    0x11650; 0x116c0; 0x11730; 0x118e0; 0x11950; 0x11c50; 0x11d50; 0x11da0;
    0x16a60; 0x16ac0; 0x16b50; 0x1d7ce; 0x1d7d8; 0x1d7e2; 0x1d7ec; 0x1d7f6;
    0x1e140; 0x1e2f0; 0x1e950; 0x1fbf0 ].

(** The digit value of a character of category Nd, [None] for any other
    character ([unicodedata.decimal]). *)
Fixpoint decimal_in (zeros : list N) (c : char) : option Z :=
  match zeros with
  | [] => None
  | z :: rest =>
      if (z <=? c) && (c <? z + 10) then Some (Z.of_N (c - z))
      else decimal_in rest c
  end.

Definition decimal (c : char) : option Z := decimal_in nd_zeros c.

Definition isdecimal (c : char) : bool :=
  match decimal c with Some _ => true | None => false end.

(** The ten ASCII digits. *)
Definition isascii_digit (c : char) : bool := (48 <=? c) && (c <=? 57).

(** [str(n)] for a non-negative integer. *)
Definition str_of_nonneg (n : Z) : str :=
  map N_of_ascii
      (list_ascii_of_string (NilEmpty.string_of_uint (N.to_uint (Z.to_N n)))).

(** [int(s)] for the strings this program converts: optional leading blanks
    and then decimal digits (of any script).  [None] stands for the
    [ValueError] of [int]. *)
Fixpoint digits_value (acc : Z) (s : str) : option Z :=
  match s with
  | [] => Some acc
  | c :: r =>
      match decimal c with
      | Some d => digits_value (10 * acc + d) r
      | None => None
      end
  end.

Fixpoint lstrip (s : str) : str :=
  match s with
  | c :: r => if c =? 32 then lstrip r else s
  | [] => []
  end.

Definition int (s : str) : option Z :=
  match lstrip s with
  | [] => None
  | d => digits_value 0 d
  end.

(** *** Exceptions

    The three classes [input_error] handles, and [TypeError] for a class it
    does not handle. *)
Inductive exn :=
| ValueError (msg : str)
| KeyError
| IndexError (msg : str)
| TypeError (msg : str).

Inductive outcome (A : Type) :=
| Ok (a : A)
| Raise (e : exn).
Arguments Ok {A} a.
Arguments Raise {A} e.

Definition bind {A B} (m : outcome A) (f : A -> outcome B) : outcome B :=
  match m with
  | Ok a => f a
  | Raise e => Raise e
  end.

End Py.
Import Py.

Notation "x <- m ;; k" := (bind m (fun x => k))
  (at level 61, m at next level, right associativity).


(** ** The matcher of [re]

    Patterns are kept in parsed form.  The matcher backtracks as [re] does:
    the alternatives of [|] are tried from left to right, and an alternative
    that matches is given up when what follows it fails.  A group is the
    slice of the string between the positions where it was entered and
    left. *)

Module Re.

Inductive regex :=
| Chr (c : char)               (* a literal character, [\.] included *)
| Rng (lo hi : char)           (* [lo-hi] *)
| Dig                          (* \d *)
| Cat (r1 r2 : regex)          (* r1r2 *)
| Alt (r1 r2 : regex)          (* r1|r2 *)
| Rep (n : nat) (r : regex)    (* r{n} *)
| Grp (name : char) (r : regex) (* (?P<name>r) *).

Definition groups := list (char * str).

Section Exec.
Context {A : Type}.

(** What follows a pattern gets the rest of the string, the position
    reached and the groups closed so far. *)
Definition cont := str -> nat -> groups -> option A.

Definition step (p : char -> bool) (s : str) (pos : nat) (g : groups)
           (k : cont) : option A :=
  match s with
  | x :: s' => if p x then k s' (S pos) g else None
  | [] => None
  end.

Fixpoint exec (r : regex) (s : str) (pos : nat) (g : groups) (k : cont)
         {struct r} : option A :=
  match r with
  | Chr c => step (fun x => x =? c) s pos g k
  | Rng lo hi => step (fun x => (lo <=? x) && (x <=? hi)) s pos g k
  | Dig => step isdecimal s pos g k
  | Cat r1 r2 => exec r1 s pos g (fun s' pos' g' => exec r2 s' pos' g' k)
  | Alt r1 r2 =>
      match exec r1 s pos g k with
      | Some a => Some a
      | None => exec r2 s pos g k
      end
  | Rep n r1 =>
      (fix rep (n : nat) (s : str) (pos : nat) (g : groups) : option A :=
         match n with
         | O => k s pos g
         | S n' => exec r1 s pos g (fun s' pos' g' => rep n' s' pos' g')
         end) n s pos g
  | Grp name r1 =>
      exec r1 s pos g
           (fun s' pos' g' =>
              k s' pos' ((name, firstn (pos' - pos) s) :: g'))
  end.
End Exec.

(** [pattern.match(s)]: the end of the first match found and its groups. *)
Definition re_match (r : regex) (s : str) : option (nat * groups) :=
  exec r s 0 [] (fun _ pos g => Some (pos, g)).

(** [re.fullmatch(pattern, s) is not None] *)
Definition fullmatch (r : regex) (s : str) : bool :=
  match exec r s 0 []
             (fun s' _ g => match s' with [] => Some g | _ => None end)
  with
  | Some _ => true
  | None => false
  end.

(** [found.groupdict()[name]] *)
Fixpoint group (g : groups) (name : char) : str :=
  match g with
  | [] => []
  | (n, v) :: rest => if n =? name then v else group rest name
  end.

End Re.

(** ** [datetime.date]

    The arithmetic of the calendar as [datetime] has it ([_is_leap],
    [_days_in_month], [_days_before_year], [_days_before_month], [_ymd2ord]),
    and the checks of the constructor with the error texts of CPython
    3.11. *)

Module Datetime.

Local Open Scope Z_scope.

Record date := mkdate { year : Z; month : Z; day : Z }.

Definition MINYEAR := 1.
Definition MAXYEAR := 9999.

Definition is_leap (y : Z) : bool :=
  (y mod 4 =? 0) && (negb (y mod 100 =? 0) || (y mod 400 =? 0)).

Definition DAYS_IN_MONTH : list Z :=
  [-1; 31; 28; 31; 30; 31; 30; 31; 31; 30; 31; 30; 31].

Definition DAYS_BEFORE_MONTH : list Z :=
  [-1; 0; 31; 59; 90; 120; 151; 181; 212; 243; 273; 304; 334].

Definition days_in_month (y m : Z) : Z :=
  if (m =? 2) && is_leap y then 29 else nth (Z.to_nat m) DAYS_IN_MONTH 0.

Definition days_before_year (y : Z) : Z :=
  let y := y - 1 in y * 365 + y / 4 - y / 100 + y / 400.

Definition days_before_month (y m : Z) : Z :=
  nth (Z.to_nat m) DAYS_BEFORE_MONTH 0
  + (if (2 <? m) && is_leap y then 1 else 0).

Definition ymd2ord (y m d : Z) : Z :=
  days_before_year y + days_before_month y m + d.

Definition str_of_int (n : Z) : str :=
  if n <? 0 then ch "-" :: str_of_nonneg (- n) else str_of_nonneg n.

(** [date(year, month, day)]: the fields are checked, in this order. *)
Definition date_new (y m d : Z) : outcome date :=
  if negb ((MINYEAR <=? y) && (y <=? MAXYEAR)) then
    Raise (ValueError (u "year " ++ str_of_int y ++ u " is out of range"))
  else if negb ((1 <=? m) && (m <=? 12)) then
    Raise (ValueError (u "month must be in 1..12"))
  else if negb ((1 <=? d) && (d <=? days_in_month y m)) then
    Raise (ValueError (u "day is out of range for month"))
  else Ok (mkdate y m d).

(** [d.replace(year=y)] builds a new date and so checks the fields again. *)
Definition replace_year (d : date) (y : Z) : outcome date :=
  date_new y (month d) (day d).

Definition toordinal (d : date) : Z := ymd2ord (year d) (month d) (day d).

(** [(a - b).days] *)
Definition sub_days (a b : date) : Z := toordinal a - toordinal b.

(** *** [strptime(value, "%d.%m.%Y")]

    [_strptime] turns the format into a pattern by replacing each directive
    with its entry of [TimeRE] and escaping the dots; the entries used are
    - [%d]: [(?P<d>3[0-1]|[1-2]\d|0[1-9]|[1-9]| [1-9])]
    - [%m]: [(?P<m>1[0-2]|0[1-9]|[1-9])]
    - [%Y]: [(?P<Y>\d\d\d\d)]
    (the pattern is compiled with IGNORECASE, which changes nothing for
    digits, dots and blanks). *)

Import Re.

Definition TimeRE_d : regex :=
  Grp (ch "d")
      (Alt (Cat (Chr (ch "3")) (Rng (ch "0") (ch "1")))
      (Alt (Cat (Rng (ch "1") (ch "2")) Dig)
      (Alt (Cat (Chr (ch "0")) (Rng (ch "1") (ch "9")))
      (Alt (Rng (ch "1") (ch "9"))
           (Cat (Chr (ch " ")) (Rng (ch "1") (ch "9"))))))).

Definition TimeRE_m : regex :=
  Grp (ch "m")
      (Alt (Cat (Chr (ch "1")) (Rng (ch "0") (ch "2")))
      (Alt (Cat (Chr (ch "0")) (Rng (ch "1") (ch "9")))
           (Rng (ch "1") (ch "9")))).

Definition TimeRE_Y : regex :=
  Grp (ch "Y") (Cat Dig (Cat Dig (Cat Dig Dig))).

Definition format_regex : regex :=
  Cat TimeRE_d (Cat (Chr (ch ".")) (Cat TimeRE_m (Cat (Chr (ch ".")) TimeRE_Y))).

(** [datetime.strptime(data_string, "%d.%m.%Y").date()].  Every failure is a
    [ValueError]; the text of those raised by [_strptime] itself is
    shortened here, the caller replaces it. *)
Definition strptime (data_string : str) : outcome date :=
  match re_match format_regex data_string with
  | None => Raise (ValueError (u "time data does not match format"))
  | Some (end_, found) =>
      if negb (Nat.eqb (length data_string) end_) then
        Raise (ValueError (u "unconverted data remains"))
      else
        match int (group found (ch "Y")),
              int (group found (ch "m")),
              int (group found (ch "d")) with
        | Some y, Some m, Some d => date_new y m d
        | _, _, _ => Raise (ValueError (u "invalid literal for int()"))
        end
  end.

(** *** [d.strftime("%d.%m.%Y")]

    [%d] and [%m] are two digits.  [%Y] is left to the C library: glibc
    prints the year without filling (year 999 gives [999]), other C libraries
    fill it with zeros to four digits.  [fill_year] tells which. *)
Definition two_digits (n : Z) : str :=
  [Z.to_N (48 + n / 10); Z.to_N (48 + n mod 10)].

Definition zfill (width : nat) (s : str) : str :=
  repeat (ch "0") (width - length s) ++ s.

Definition strftime_Y (fill_year : bool) (y : Z) : str :=
  if fill_year then zfill 4 (str_of_nonneg y) else str_of_nonneg y.

Definition strftime (fill_year : bool) (d : date) : str :=
  two_digits (day d) ++ [ch "."] ++ two_digits (month d) ++ [ch "."]
  ++ strftime_Y fill_year (year d).

End Datetime.
Import Datetime.

(** ** State and exceptions

    A method or handler works on an object it may change and either returns
    or raises; what it did to the object before raising stays done. *)

Definition M (S A : Type) : Type := S -> outcome A * S.

Definition ret {S A} (a : A) : M S A := fun s => (Ok a, s).
Definition raise {S A} (e : exn) : M S A := fun s => (Raise e, s).
Definition lift {S A} (o : outcome A) : M S A := fun s => (o, s).
Definition get {S} : M S S := fun s => (Ok s, s).
Definition bindM {S A B} (m : M S A) (f : A -> M S B) : M S B :=
  fun s =>
    match m s with
    | (Ok a, s') => f a s'
    | (Raise e, s') => (Raise e, s')
    end.

Notation "x <~ m ;; k" := (bindM m (fun x => k))
  (at level 61, m at next level, right associativity).
Notation "m ;;; k" := (bindM m (fun _ => k))
  (at level 61, right associativity).

(** ** The fields *)

Record Field (T : Type) := mkField { value : T }.
Arguments mkField {T} value.
Arguments value {T} f.

Definition Name := Field str.
Definition Phone := Field str.
Definition Birthday := Field date.

Definition Name_init (v : str) : outcome Name :=
  match v with
  | [] => Raise (ValueError (u "Ім'я не може бути порожнім"))
  | _ => Ok (mkField v)
  end.

(** [re.fullmatch(r"\d{10}", phone_number) is not None] *)
Definition Phone_validate (phone_number : str) : bool :=
  Re.fullmatch (Re.Rep 10 Re.Dig) phone_number.

Definition Phone_init (v : str) : outcome Phone :=
  if negb (Phone_validate v) then
    Raise (ValueError (u "Номер телефону має містити рівно 10 цифр"))
  else Ok (mkField v).

Definition Birthday_init (v : str) : outcome Birthday :=
  match strptime v with
  | Ok d => Ok (mkField d)
  | Raise (ValueError _) =>
      Raise (ValueError
               (u "Неправильний формат дати. Використовуйте DD.MM.YYYY"))
  | Raise e => Raise e
  end.

Section Platform.

(** Whether the C library fills [%Y] with zeros (see [strftime_Y]). *)
Variable fill_year : bool.

Definition Birthday_str (b : Birthday) : str := strftime fill_year (value b).

(** ** Record *)

Record Record_ := mkRecord {
  name : Name;
  phones : list Phone;
  birthday : option Birthday
}.

Definition set_phones (ps : list Phone) (self : Record_) : Record_ :=
  mkRecord (name self) ps (birthday self).

Definition set_birthday (b : option Birthday) (self : Record_) : Record_ :=
  mkRecord (name self) (phones self) b.

Definition Record_init (n : str) : outcome Record_ :=
  nm <- Name_init n ;; Ok (mkRecord nm [] None).

Definition add_phone (phone : str) : M Record_ unit :=
  new_phone <~ lift (Phone_init phone) ;;
  fun self => (Ok tt, set_phones (phones self ++ [new_phone]) self).

Definition delete_phone (phone : str) : M Record_ unit :=
  fun self =>
    (Ok tt,
     set_phones
       (filter (fun p => negb (str_eqb (value p) phone)) (phones self)) self).

(** The loop of [edit_phone]: the first phone whose value is [old_phone]
    gets the new value and the method returns; [None] when the loop runs to
    its end. *)
Fixpoint edit_phone_loop (ps : list Phone) (old_phone new_phone : str)
  : option (list Phone) :=
  match ps with
  | [] => None
  | phone :: rest =>
      if str_eqb (value phone) old_phone then Some (mkField new_phone :: rest)
      else
        match edit_phone_loop rest old_phone new_phone with
        | Some rest' => Some (phone :: rest')
        | None => None
        end
  end.

Definition edit_phone (old_phone new_phone : str) : M Record_ unit :=
  fun self =>
    match edit_phone_loop (phones self) old_phone new_phone with
    | Some ps => (Ok tt, set_phones ps self)
    | None => (Raise (ValueError (u "Номер телефону не знайдено")), self)
    end.

Definition Record_add_birthday (b : str) : M Record_ unit :=
  bd <~ lift (Birthday_init b) ;;
  fun self => (Ok tt, set_birthday (Some bd) self).

Definition Record_show_birthday (self : Record_) : str :=
  match birthday self with
  | Some b => u "День народження: " ++ Birthday_str b
  | None => u "День народження не встановлений"
  end.

Definition Record_str (self : Record_) : str :=
  let phones_str := join (u "; ") (map value (phones self)) in
  u "Ім'я контакту: " ++ value (name self) ++ u ", телефони: " ++ phones_str
  ++ u ", " ++ Record_show_birthday self.

(** ** AddressBook

    [data] is a [dict]: it keeps its keys in the order of their first
    insertion, and assigning to a key it has keeps the key where it is. *)

Definition AddressBook := list (str * Record_).

Fixpoint dict_set (data : AddressBook) (key : str) (v : Record_)
  : AddressBook :=
  match data with
  | [] => [(key, v)]
  | (k, w) :: rest =>
      if str_eqb k key then (k, v) :: rest else (k, w) :: dict_set rest key v
  end.

Fixpoint dict_get (data : AddressBook) (key : str) : option Record_ :=
  match data with
  | [] => None
  | (k, w) :: rest => if str_eqb k key then Some w else dict_get rest key
  end.

Fixpoint dict_del (data : AddressBook) (key : str) : AddressBook :=
  match data with
  | [] => []
  | (k, w) :: rest =>
      if str_eqb k key then rest else (k, w) :: dict_del rest key
  end.

Definition dict_values (data : AddressBook) : list Record_ := map snd data.

Definition add_record (record : Record_) : M AddressBook unit :=
  fun data => (Ok tt, dict_set data (value (name record)) record).

Definition delete_record (n : str) : M AddressBook unit :=
  fun data =>
    match dict_get data n with
    | Some _ => (Ok tt, dict_del data n)
    | None =>
        (Raise (ValueError (u "Запис з ім'ям '" ++ n ++ u "' не знайдено")),
         data)
    end.

Definition find_record (data : AddressBook) (n : str) : option Record_ :=
  dict_get data n.

(** The loop of [get_upcoming_birthdays] over [self.data.values()];
    [upcoming] is the list built so far. *)
Fixpoint upcoming_loop (records : list Record_) (days : Z) (today : date)
         (upcoming : list Record_) : outcome (list Record_) :=
  match records with
  | [] => Ok upcoming
  | record :: rest =>
      match birthday record with
      | Some b =>
          bday <- replace_year (value b) (year today) ;;
          if ((0 <=? sub_days bday today) && (sub_days bday today <=? days))%Z
          then upcoming_loop rest days today (upcoming ++ [record])
          else upcoming_loop rest days today upcoming
      | None => upcoming_loop rest days today upcoming
      end
  end.

(** [today] is what [datetime.now().date()] gives at the call. *)
Definition get_upcoming_birthdays (data : AddressBook) (days : Z)
           (today : date) : outcome (list Record_) :=
  upcoming_loop (dict_values data) days today [].

(** ** The handlers *)

(** A record is an object the book refers to: a method called on the record
    found under [key] changes what the book holds under [key]. *)
Definition call {A} (key : str) (record : Record_) (method : M Record_ A)
  : M AddressBook A :=
  fun data =>
    let (res, record') := method record in (res, dict_set data key record').

Definition str_of_nat (n : nat) : str := str_of_nonneg (Z.of_nat n).

Definition input_error (func : list str -> M AddressBook str)
  : list str -> M AddressBook str :=
  fun args book =>
    match func args book with
    | (Ok s, book') => (Ok s, book')
    | (Raise (ValueError e), book') => (Ok (u "Помилка: " ++ e), book')
    | (Raise KeyError, book') => (Ok (u "Контакт не знайдено"), book')
    | (Raise (IndexError _), book') =>
        (Ok (u "Недостатньо аргументів для виконання команди"), book')
    | (Raise e, book') => (Raise e, book')
    end.

Definition add_contact_body (args : list str) : M AddressBook str :=
  match args with
  | n :: phone :: _ =>
      book <~ get ;;
      found <~ match find_record book n with
               | None =>
                   record <~ lift (Record_init n) ;;
                   add_record record ;;;
                   ret (record, u "Контакт додано.")
               | Some record => ret (record, u "Контакт оновлено.")
               end ;;
      match phone with
      | [] => ret tt
      | _ => call n (fst found) (add_phone phone)
      end ;;;
      ret (snd found)
  | _ =>
      raise (ValueError
               (u "not enough values to unpack (expected at least 2, got "
                ++ str_of_nat (length args) ++ u ")"))
  end.

Definition add_contact := input_error add_contact_body.

Definition change_contact_body (args : list str) : M AddressBook str :=
  match args with
  | [n; old_phone; new_phone] =>
      book <~ get ;;
      match find_record book n with
      | Some record =>
          call n record (edit_phone old_phone new_phone) ;;;
          ret (u "Номер телефону змінено")
      | None => ret (u "Контакт не знайдено")
      end
  | _ :: _ :: _ :: _ :: _ =>
      raise (ValueError (u "too many values to unpack (expected 3)"))
  | _ =>
      raise (ValueError
               (u "not enough values to unpack (expected 3, got "
                ++ str_of_nat (length args) ++ u ")"))
  end.

Definition change_contact := input_error change_contact_body.

Definition show_phone_body (args : list str) : M AddressBook str :=
  match args with
  | n :: _ =>
      book <~ get ;;
      match find_record book n with
      | Some record =>
          ret (u "Телефони для " ++ n ++ u ": "
               ++ join (u ", ") (map value (phones record)))
      | None => ret (u "Контакт не знайдено")
      end
  | [] => raise (IndexError (u "list index out of range"))
  end.

Definition show_phone := input_error show_phone_body.

Definition add_birthday_body (args : list str) : M AddressBook str :=
  match args with
  | [n; b] =>
      book <~ get ;;
      match find_record book n with
      | Some record =>
          call n record (Record_add_birthday b) ;;;
          ret (u "День народження додано")
      | None => ret (u "Контакт не знайдено")
      end
  | _ :: _ :: _ :: _ =>
      raise (ValueError (u "too many values to unpack (expected 2)"))
  | _ =>
      raise (ValueError
               (u "not enough values to unpack (expected 2, got "
                ++ str_of_nat (length args) ++ u ")"))
  end.

Definition add_birthday := input_error add_birthday_body.

Definition show_birthday_body (args : list str) : M AddressBook str :=
  match args with
  | n :: _ =>
      book <~ get ;;
      match find_record book n with
      | Some record => ret (Record_show_birthday record)
      | None => ret (u "Контакт не знайдено")
      end
  | [] => raise (IndexError (u "list index out of range"))
  end.

Definition show_birthday := input_error show_birthday_body.

(** The loop of [birthdays] that builds the answer. *)
Fixpoint birthdays_lines (upcoming : list Record_) (result : str) : str :=
  match upcoming with
  | [] => result
  | record :: rest =>
      birthdays_lines rest
        (result ++ value (name record) ++ u ": "
         ++ match birthday record with
            | Some b => Birthday_str b
            | None => u "None"
            end
         ++ [10%N])
  end.

Definition birthdays_body (today : date) (args : list str)
  : M AddressBook str :=
  book <~ get ;;
  upcoming_birthdays <~ lift (get_upcoming_birthdays book 7 today) ;;
  match upcoming_birthdays with
  | [] => ret (u "Немає днів народження найближчим часом")
  | _ => ret (birthdays_lines upcoming_birthdays
                              (u "Найближчі дні народження:" ++ [10%N]))
  end.

Definition birthdays (today : date) := input_error (birthdays_body today).

(** [show_all] is not wrapped by [input_error]. *)
Definition show_all : M AddressBook str :=
  book <~ get ;;
  match book with
  | [] => ret (u "Адресна книга порожня")
  | _ => ret (join [10%N] (map Record_str (dict_values book)))
  end.

(** The commands [main] sends to a handler, and the call it makes. *)
Inductive command :=
| cmd_add | cmd_change | cmd_phone | cmd_all
| cmd_add_birthday | cmd_show_birthday | cmd_birthdays.

Definition handle (c : command) (today : date) (args : list str)
  : M AddressBook str :=
  match c with
  | cmd_add => add_contact args
  | cmd_change => change_contact args
  | cmd_phone => show_phone args
  | cmd_all => show_all
  | cmd_add_birthday => add_birthday args
  | cmd_show_birthday => show_birthday args
  | cmd_birthdays => birthdays today args
  end.

End Platform.

(** * Specification

    The notions the statements below are written with. *)

Local Open Scope Z_scope.

(** A string of exactly ten decimal digits. *)
Definition ten_decimal_digits (s : str) : Prop :=
  length s = 10%nat /\ Forall (fun c => isdecimal c = true) s.

(** White space, as [str.isspace] has it. *)
Definition isspace (c : char) : bool :=
  ((9 <=? c) && (c <=? 13) || (28 <=? c) && (c <=? 32) || (c =? 0x85)
   || (c =? 0xa0) || (c =? 0x1680) || (0x2000 <=? c) && (c <=? 0x200a)
   || (c =? 0x2028) || (c =? 0x2029) || (c =? 0x202f) || (c =? 0x205f)
   || (c =? 0x3000))%N.

(** The value of an ASCII digit. *)
Definition digit (c : char) : Z := Z.of_N c - 48.

(** A day as [%d] reads it: one digit, alone or after a zero or a blank, or
    a number from 10 to 31 (the unit of 10..29 may be a digit of any
    script). *)
Inductive day_field : str -> Z -> Prop :=
| day_one c : 49 <= Z.of_N c <= 57 -> day_field [c] (digit c)
| day_zero c : 49 <= Z.of_N c <= 57 -> day_field [ch "0"; c] (digit c)
| day_blank c : 49 <= Z.of_N c <= 57 -> day_field [ch " "; c] (digit c)
| day_tens a b v :
    49 <= Z.of_N a <= 50 -> decimal b = Some v ->
    day_field [a; b] (10 * digit a + v)
| day_thirty b : 48 <= Z.of_N b <= 49 -> day_field [ch "3"; b] (30 + digit b).

(** A month as [%m] reads it: 1 to 12, one digit or two. *)
Inductive month_field : str -> Z -> Prop :=
| month_one c : 49 <= Z.of_N c <= 57 -> month_field [c] (digit c)
| month_zero c : 49 <= Z.of_N c <= 57 -> month_field [ch "0"; c] (digit c)
| month_ten b : 48 <= Z.of_N b <= 50 -> month_field [ch "1"; b] (10 + digit b).

(** A year as [%Y] reads it: four decimal digits. *)
Inductive year_field : str -> Z -> Prop :=
| year_digits a b c d va vb vc vd :
    decimal a = Some va -> decimal b = Some vb ->
    decimal c = Some vc -> decimal d = Some vd ->
    year_field [a; b; c; d] (1000 * va + 100 * vb + 10 * vc + vd).

(** A date of the calendar of [datetime]. *)
Definition valid_date (y m d : Z) : Prop :=
  1 <= y <= 9999 /\ 1 <= m <= 12 /\ 1 <= d <= days_in_month y m.

(** [s] is a day, a month and a year with dots between them, and they make
    the date [dt]. *)
Definition reads_as (s : str) (dt : date) : Prop :=
  exists df mf yf,
    s = df ++ ch "." :: mf ++ ch "." :: yf
    /\ day_field df (day dt) /\ month_field mf (month dt)
    /\ year_field yf (year dt)
    /\ valid_date (year dt) (month dt) (day dt).


(** [s] is written [DD.MM.YYYY] with ASCII digits, and the numbers written
    are [d], [m] and [y]. *)
Definition ddmmyyyy (s : str) (y m d : Z) : Prop :=
  exists d1 d2 m1 m2 y1 y2 y3 y4,
    s = [d1; d2; ch "."; m1; m2; ch "."; y1; y2; y3; y4]
    /\ forallb isascii_digit [d1; d2; m1; m2; y1; y2; y3; y4] = true
    /\ d = 10 * digit d1 + digit d2
    /\ m = 10 * digit m1 + digit m2
    /\ y = 1000 * digit y1 + 100 * digit y2 + 10 * digit y3 + digit y4.

(** The four digits of a year up to 9999. *)
Definition digits4 (y : Z) : str :=
  [Z.to_N (48 + y / 1000); Z.to_N (48 + y / 100 mod 10);
   Z.to_N (48 + y / 10 mod 10); Z.to_N (48 + y mod 10)].

(** Every phone of the record has the format of a phone. *)
Definition phones_valid (r : Record_) : Prop :=
  Forall (fun p => ten_decimal_digits (value p)) (phones r).

(** The operations of a record, and a run of them on a record; an operation
    that raises leaves the record to the next one as it left it. *)
Inductive operation :=
| op_add_phone (raw : str)
| op_delete_phone (raw : str)
| op_edit_phone (old_raw new_raw : str)
| op_set_birthday (raw : str).

Definition apply_operation (o : operation) (r : Record_) : Record_ :=
  match o with
  | op_add_phone raw => snd (add_phone raw r)
  | op_delete_phone raw => snd (delete_phone raw r)
  | op_edit_phone old_raw new_raw => snd (edit_phone old_raw new_raw r)
  | op_set_birthday raw => snd (Record_add_birthday raw r)
  end.

Definition run_operations (ops : list operation) (r : Record_) : Record_ :=
  fold_left (fun r o => apply_operation o r) ops r.

(** The days from [today] to the birthday [b] in the year of [today]. *)
Definition days_until (today : date) (b : Birthday) : Z :=
  ymd2ord (year today) (month (value b)) (day (value b)) - toordinal today.

(** The record has a birthday, and it comes within [days] days. *)
Definition qualifies (days : Z) (today : date) (r : Record_) : bool :=
  match birthday r with
  | Some b => (0 <=? days_until today b) && (days_until today b <=? days)
  | None => false
  end.

(** The call returned, or raised a [ValueError]. *)
Definition only_ValueError {A} (o : outcome A) : Prop :=
  match o with
  | Ok _ => True
  | Raise (ValueError _) => True
  | Raise _ => False
  end.

(** The call returned, or raised what [input_error] handles. *)
Definition handled {A} (o : outcome A) : Prop :=
  match o with
  | Raise (TypeError _) => False
  | _ => True
  end.

(** *** Records and books the statements are tried on *)

Definition ann : Record_ :=
  mkRecord (mkField (u "Ann")) [mkField (u "1234567890")] None.

Definition bob_feb_26 : Record_ :=
  mkRecord (mkField (u "Bob")) [mkField (u "0501234567")]
           (Some (mkField (mkdate 1990 2 26))).

Definition ann_feb_29 : Record_ :=
  mkRecord (mkField (u "Ann")) [mkField (u "1234567890")]
           (Some (mkField (mkdate 2000 2 29))).

Definition leap_book : AddressBook :=
  [(u "Bob", bob_feb_26); (u "Ann", ann_feb_29)].

(** * The command loop

    [parse_input] and [main].  The lines [input] returns are given, each
    with the day on which it is read; what [main] writes is kept as a list
    of events. *)

(** [s.lstrip()] and [s.strip()] *)
Fixpoint lstrip_ws (s : str) : str :=
  match s with
  | c :: r => if isspace c then lstrip_ws r else s
  | [] => []
  end.

Definition strip (s : str) : str := rev (lstrip_ws (rev (lstrip_ws s))).

(** [s.split()]: the runs of characters that are not white space; [word]
    is the run being read. *)
Fixpoint split_from (s word : str) : list str :=
  match s with
  | [] => match word with [] => [] | _ => [word] end
  | c :: r =>
      if isspace c then
        match word with
        | [] => split_from r []
        | _ => word :: split_from r []
        end
      else split_from r (word ++ [c])
  end.

Definition split (s : str) : list str := split_from s [].

Definition parse_input (user_input : str) : outcome (str * list str) :=
  match split (strip user_input) with
  | command :: args => Ok (command, args)
  | [] =>
      Raise (ValueError
               (u "not enough values to unpack (expected at least 1, got 0)"))
  end.

(** What [main] writes: the prompt of [input], or a line it prints. *)
Inductive event :=
| Asked (prompt : str)
| Printed (line : str).

(** How [main] ends: it leaves the loop, an exception leaves it, or [input]
    finds no more lines (and raises [EOFError]). *)
Inductive ending :=
| Closed
| Uncaught (e : exn)
| EndOfInput.

(** The handler of a command word. *)
Definition command_of (word : str) : option command :=
  if str_eqb word (u "add") then Some cmd_add
  else if str_eqb word (u "change") then Some cmd_change
  else if str_eqb word (u "phone") then Some cmd_phone
  else if str_eqb word (u "all") then Some cmd_all
  else if str_eqb word (u "add-birthday") then Some cmd_add_birthday
  else if str_eqb word (u "show-birthday") then Some cmd_show_birthday
  else if str_eqb word (u "birthdays") then Some cmd_birthdays
  else None.

Section Loop.

Variable fill_year : bool.

Fixpoint main_loop (inputs : list (date * str)) (book : AddressBook)
         (out : list event) : list event * AddressBook * ending :=
  match inputs with
  | [] => (out ++ [Asked (u "Введіть команду: ")], book, EndOfInput)
  | (today, user_input) :: rest =>
      let out := out ++ [Asked (u "Введіть команду: ")] in
      match parse_input user_input with
      | Raise e => (out, book, Uncaught e)
      | Ok (word, args) =>
          if str_eqb word (u "close") || str_eqb word (u "exit") then
            (out ++ [Printed (u "До побачення!")], book, Closed)
          else if str_eqb word (u "hello") then
            main_loop rest book (out ++ [Printed (u "Чим можу допомогти?")])
          else
            match command_of word with
            | Some c =>
                match handle fill_year c today args book with
                | (Ok answer, book') =>
                    main_loop rest book' (out ++ [Printed answer])
                | (Raise e, book') => (out, book', Uncaught e)
                end
            | None =>
                main_loop rest book
                          (out ++ [Printed (u "Неправильна команда.")])
            end
      end
  end.

Definition main (inputs : list (date * str))
  : list event * AddressBook * ending :=
  main_loop inputs [] [Printed (u "Ласкаво просимо до асистента!")].

End Loop.

(** ** More notions for the statements *)

(** The string is empty or made of white space. *)
Definition blank (s : str) : Prop := forallb isspace s = true.

(** The book is a dictionary whose records are kept under their names. *)
Definition book_ok (book : AddressBook) : Prop :=
  NoDup (map fst book)
  /\ Forall (fun kr => value (name (snd kr)) = fst kr) book.


(** A word: a string that is not empty and has no white space. *)
Definition word (w : str) : Prop :=
  w <> [] /\ forallb (fun c => negb (isspace c)) w = true.

(** What a handler may do to the book when its first argument is [n]:
    nothing, change the record kept under [n] without changing its name, or
    put a record named [n] where the book had none. *)
Inductive book_change (n : str) (book : AddressBook) : AddressBook -> Prop :=
| book_unchanged : book_change n book book
| book_record_changed r r' :
    dict_get book n = Some r -> name r' = name r ->
    book_change n book (dict_set book n r')
| book_record_added r' :
    dict_get book n = None -> value (name r') = n ->
    book_change n book (dict_set book n r').


(** * Properties *)

Lemma str_eqb_spec (a b : str) : reflect (a = b) (str_eqb a b).
Proof.
  revert b; induction a as [|x a IH]; intros [|y b]; simpl;
    try (constructor; congruence).
  destruct (N.eqb_spec x y) as [->|Hxy]; simpl.
  - destruct (IH b) as [->|Hab]; constructor; congruence.
  - constructor; congruence.
Qed.

Lemma str_eqb_refl (a : str) : str_eqb a a = true.
Proof. destruct (str_eqb_spec a a); congruence. Qed.

(** ** The program on the scenarios of its specification *)

Example scenario_add :
  add_contact [u "Ann"; u "1234567890"] []
  = (Ok (u "Контакт додано."), [(u "Ann", ann)]).
Proof. vm_compute. reflexivity. Qed.

Example scenario_add_twice :
  add_contact [u "Ann"; u "1234567890"] [(u "Ann", ann)]
  = (Ok (u "Контакт оновлено."),
     [(u "Ann",
       mkRecord (mkField (u "Ann"))
                [mkField (u "1234567890"); mkField (u "1234567890")] None)]).
Proof. vm_compute. reflexivity. Qed.

Example scenario_birthday :
  show_birthday false [u "Ann"]
    (snd (add_birthday [u "Ann"; u "15.03.1990"] [(u "Ann", ann)]))
  = (Ok (u "День народження: 15.03.1990"),
     [(u "Ann",
       mkRecord (mkField (u "Ann")) [mkField (u "1234567890")]
                (Some (mkField (mkdate 1990 3 15))))]).
Proof. vm_compute. reflexivity. Qed.

Example scenario_change :
  change_contact [u "Ann"; u "1234567890"; u "0000000000"] [(u "Ann", ann)]
  = (Ok (u "Номер телефону змінено"),
     [(u "Ann",
       mkRecord (mkField (u "Ann")) [mkField (u "0000000000")] None)]).
Proof. vm_compute. reflexivity. Qed.

Example scenario_change_stale :
  change_contact [u "Ann"; u "5555555555"; u "0000000000"] [(u "Ann", ann)]
  = (Ok (u "Помилка: Номер телефону не знайдено"), [(u "Ann", ann)]).
Proof. vm_compute. reflexivity. Qed.

Example scenario_birthdays_empty :
  birthdays false (mkdate 2023 2 25) [] []
  = (Ok (u "Немає днів народження найближчим часом"), []).
Proof. vm_compute. reflexivity. Qed.

Example scenario_birthdays :
  birthdays false (mkdate 2023 2 25) [] [(u "Bob", bob_feb_26)]
  = (Ok (u "Найближчі дні народження:" ++ [10%N]
         ++ u "Bob: 26.02.1990" ++ [10%N]),
     [(u "Bob", bob_feb_26)]).
Proof. vm_compute. reflexivity. Qed.

Example scenario_missing_arguments :
  add_contact [u "Ann"] []
  = (Ok (u "Помилка: not enough values to unpack (expected at least 2, got 1)"),
     [])
  /\ show_phone [] []
     = (Ok (u "Недостатньо аргументів для виконання команди"), []).
Proof. split; vm_compute; reflexivity. Qed.

(** [strptime] on strings CPython 3.11 was tried on. *)
Example strptime_samples :
  strptime (u "15.03.1990") = Ok (mkdate 1990 3 15)
  /\ strptime (u "1.3.1990") = Ok (mkdate 1990 3 1)
  /\ strptime (u " 5.03.1990") = Ok (mkdate 1990 3 5)
  /\ strptime (u "1٥.03.199٠") = Ok (mkdate 1990 3 15)
  /\ strptime (u "01.01.0000")
     = Raise (ValueError (u "year 0 is out of range"))
  /\ strptime (u "29.02.2001")
     = Raise (ValueError (u "day is out of range for month"))
  /\ strptime (u "31.04.2000")
     = Raise (ValueError (u "day is out of range for month"))
  /\ (exists msg, strptime (u "05.03.1990 ") = Raise (ValueError msg))
  /\ (exists msg, strptime (u "5.3.90") = Raise (ValueError msg))
  /\ (exists msg, strptime (u "٠5.03.1990") = Raise (ValueError msg)).
Proof.
  repeat split; try (vm_compute; reflexivity);
    eexists; vm_compute; reflexivity.
Qed.

Example toordinal_sample : toordinal (mkdate 2024 3 1) = 738946.
Proof. reflexivity. Qed.

(** ** The matcher on [\d{n}] *)

Lemma exec_Rep_Dig {A} (n : nat) :
  forall (s : str) (pos : nat) (g : Re.groups) (k : Re.cont (A:=A)),
    Re.exec (Re.Rep n Re.Dig) s pos g k
    = if (n <=? length s)%nat && forallb isdecimal (firstn n s)
      then k (skipn n s) (n + pos)%nat g else None.
Proof.
  induction n as [|n IH]; intros s pos g k.
  - reflexivity.
  - destruct s as [|c s].
    + reflexivity.
    + change (Re.exec (Re.Rep (S n) Re.Dig) (c :: s) pos g k)
        with (if isdecimal c then Re.exec (Re.Rep n Re.Dig) s (S pos) g k
              else None).
      rewrite IH. cbn [length firstn skipn forallb].
      rewrite Nat.add_succ_r.
      change (S n <=? S (length s))%nat with (n <=? length s)%nat.
      destruct (isdecimal c); [|now rewrite andb_false_r].
      reflexivity.
Qed.

Lemma Phone_validate_spec (s : str) :
  Phone_validate s = true <-> ten_decimal_digits s.
Proof.
  unfold Phone_validate, Re.fullmatch, ten_decimal_digits.
  rewrite exec_Rep_Dig.
  destruct (Nat.leb_spec 10 (length s)) as [Hle|Hlt]; cbn [andb].
  - destruct (forallb isdecimal (firstn 10 s)) eqn:Hall.
    + destruct (skipn 10 s) as [|c r] eqn:Hskip.
      * assert (Hlen : length s = 10%nat).
        { apply (f_equal (@length _)) in Hskip.
          rewrite length_skipn in Hskip. simpl in Hskip. lia. }
        rewrite firstn_all2 in Hall by lia.
        rewrite forallb_forall in Hall. rewrite Forall_forall.
        split; [intros _; split; [exact Hlen | exact Hall] | reflexivity].
      * split; [discriminate|]. intros [Hlen _].
        apply (f_equal (@length _)) in Hskip.
        rewrite length_skipn in Hskip. simpl in Hskip. lia.
    + split; [discriminate|]. intros [Hlen Hd].
      rewrite firstn_all2 in Hall by lia.
      rewrite Forall_forall, <- forallb_forall in Hd. congruence.
  - split; [discriminate|]. intros [Hlen _]. lia.
Qed.

Lemma decimal_in_above (zeros : list N) (c : char) :
  forallb (fun z => (c <? z)%N) zeros = true -> decimal_in zeros c = None.
Proof.
  induction zeros as [|z zeros IH]; cbn [forallb decimal_in]; [reflexivity|].
  intros H. apply andb_prop in H as [Hz Hrest].
  apply N.ltb_lt in Hz.
  destruct (N.leb_spec z c); [lia|]. cbn [andb]. now apply IH.
Qed.

(** The decimal digits below U+0660 are the ASCII digits. *)
Lemma decimal_ascii (c : char) :
  (c < 0x660)%N ->
  decimal c = if isascii_digit c then Some (Z.of_N (c - 48)) else None.
Proof.
  intros Hc. unfold decimal, nd_zeros, isascii_digit.
  match goal with
  | |- decimal_in (?z :: ?rest) c = _ =>
      change (decimal_in (z :: rest) c)
        with (if ((z <=? c) && (c <? z + 10))%N then Some (Z.of_N (c - z))
              else decimal_in rest c)
  end.
  assert (Hrest : forall zeros,
             forallb (fun z => (0x660 <=? z)%N) zeros = true ->
             decimal_in zeros c = None).
  { intros zeros Hz. apply decimal_in_above.
    rewrite forallb_forall in *. intros z Hin.
    specialize (Hz z Hin). apply N.leb_le in Hz. apply N.ltb_lt. lia. }
  rewrite Hrest by reflexivity.
  destruct (N.leb_spec 0x30 c), (N.ltb_spec c (0x30 + 10)%N),
    (N.leb_spec 48 c), (N.leb_spec c 57); cbn [andb]; try reflexivity; lia.
Qed.

Lemma isdecimal_ascii (c : char) :
  (c < 0x660)%N -> isdecimal c = isascii_digit c.
Proof.
  intros Hc. unfold isdecimal. rewrite decimal_ascii by exact Hc.
  now destruct (isascii_digit c).
Qed.

Lemma Phone_init_valid (s : str) :
  ten_decimal_digits s -> Phone_init s = Ok (mkField s).
Proof.
  intros H. apply Phone_validate_spec in H.
  unfold Phone_init. now rewrite H.
Qed.

Lemma Phone_init_invalid (s : str) :
  ~ ten_decimal_digits s ->
  Phone_init s
  = Raise (ValueError (u "Номер телефону має містити рівно 10 цифр")).
Proof.
  intros H. unfold Phone_init.
  destruct (Phone_validate s) eqn:Hv; [|reflexivity].
  now apply Phone_validate_spec in Hv.
Qed.

Lemma ten_decimal_digits_dec (s : str) :
  ten_decimal_digits s \/ ~ ten_decimal_digits s.
Proof.
  destruct (Phone_validate s) eqn:Hv.
  - left. now apply Phone_validate_spec.
  - right. intros H. apply Phone_validate_spec in H. congruence.
Qed.

(** C4.  [Phone(s)] succeeds exactly when [s] is a string of exactly ten
    decimal digits, and then the phone holds [s] itself; for any other
    string it raises the [ValueError] of the validator. *)
Theorem Phone_init_iff_ten_digits (s : str) :
  (ten_decimal_digits s /\ Phone_init s = Ok (mkField s))
  \/ (~ ten_decimal_digits s
      /\ Phone_init s
         = Raise (ValueError (u "Номер телефону має містити рівно 10 цифр"))).
Proof.
  destruct (ten_decimal_digits_dec s) as [H|H]; [left|right]; split;
    auto using Phone_init_valid, Phone_init_invalid.
Qed.

(** ** What [strptime] accepts *)

Lemma decimal_digit (c : char) :
  48 <= Z.of_N c <= 57 -> decimal c = Some (digit c).
Proof.
  intros Hc. rewrite decimal_ascii by lia. unfold isascii_digit, digit.
  destruct (N.leb_spec 48 c), (N.leb_spec c 57); cbn [andb]; try lia.
  f_equal. lia.
Qed.

Lemma decimal_not_ascii (c : char) (v : Z) :
  decimal c = Some v -> (Z.of_N c < 48 -> False).
Proof.
  intros Hd Hc. rewrite decimal_ascii in Hd by lia.
  unfold isascii_digit in Hd.
  destruct (N.leb_spec 48 c); [lia|]. discriminate.
Qed.

Lemma isdecimal_true (c : char) :
  isdecimal c = true -> exists v, decimal c = Some v.
Proof.
  unfold isdecimal. destruct (decimal c) as [v|]; [eauto|discriminate].
Qed.

Lemma decimal_isdecimal (c : char) (v : Z) :
  decimal c = Some v -> isdecimal c = true.
Proof. unfold isdecimal. now intros ->. Qed.

Lemma lstrip_decimal (c : char) (v : Z) (r : str) :
  decimal c = Some v -> lstrip (c :: r) = c :: r.
Proof.
  intros Hd. cbn [lstrip].
  destruct (N.eqb_spec c 32) as [->|]; [|reflexivity].
  exfalso. apply (decimal_not_ascii _ _ Hd). lia.
Qed.

Lemma int_digits (c : char) (v : Z) (r : str) :
  decimal c = Some v -> int (c :: r) = digits_value 0 (c :: r).
Proof. intros Hd. unfold int. now rewrite (lstrip_decimal _ _ _ Hd). Qed.

Lemma int_day (f : str) (d : Z) : day_field f d -> int f = Some d.
Proof.
  intros [c Hc|c Hc|c Hc|a b v Ha Hb|b Hb].
  - rewrite (int_digits c (digit c)) by (apply decimal_digit; lia).
    cbn [digits_value]. rewrite decimal_digit by lia. f_equal; lia.
  - rewrite (int_digits _ 0) by reflexivity.
    cbn [digits_value]. change (decimal (ch "0")) with (Some 0).
    rewrite decimal_digit by lia. f_equal; lia.
  - unfold int. change (lstrip [ch " "; c]) with (lstrip [c]).
    rewrite (lstrip_decimal c (digit c)) by (apply decimal_digit; lia).
    cbn [digits_value]. rewrite decimal_digit by lia. f_equal; lia.
  - rewrite (int_digits a (digit a)) by (apply decimal_digit; lia).
    cbn [digits_value]. rewrite decimal_digit by lia. rewrite Hb.
    f_equal; lia.
  - rewrite (int_digits _ 3) by reflexivity.
    cbn [digits_value]. change (decimal (ch "3")) with (Some 3).
    rewrite decimal_digit by lia. f_equal; lia.
Qed.

Lemma int_month (f : str) (m : Z) : month_field f m -> int f = Some m.
Proof.
  intros [c Hc|c Hc|b Hb].
  - rewrite (int_digits c (digit c)) by (apply decimal_digit; lia).
    cbn [digits_value]. rewrite decimal_digit by lia. f_equal; lia.
  - rewrite (int_digits _ 0) by reflexivity.
    cbn [digits_value]. change (decimal (ch "0")) with (Some 0).
    rewrite decimal_digit by lia. f_equal; lia.
  - rewrite (int_digits _ 1) by reflexivity.
    cbn [digits_value]. change (decimal (ch "1")) with (Some 1).
    rewrite decimal_digit by lia. f_equal; lia.
Qed.

Lemma int_year (f : str) (y : Z) : year_field f y -> int f = Some y.
Proof.
  intros [a b c d va vb vc vd Ha Hb Hc Hd].
  rewrite (int_digits a va) by exact Ha.
  cbn [digits_value]. rewrite Ha, Hb, Hc, Hd. f_equal; lia.
Qed.

Lemma date_new_Ok (y m d : Z) (dt : date) :
  date_new y m d = Ok dt <-> dt = mkdate y m d /\ valid_date y m d.
Proof.
  unfold date_new, valid_date, MINYEAR, MAXYEAR.
  destruct (Z.leb_spec 1 y), (Z.leb_spec y 9999), (Z.leb_spec 1 m),
    (Z.leb_spec m 12), (Z.leb_spec 1 d), (Z.leb_spec d (days_in_month y m));
    cbn [andb negb];
    (split;
     [ intros Heq;
       first [discriminate | injection Heq as <-; split; [reflexivity|lia]]
     | intros [-> Hv]; first [reflexivity | exfalso; lia] ]).
Qed.

Lemma date_new_Raise (y m d : Z) (e : exn) :
  date_new y m d = Raise e -> exists msg, e = ValueError msg.
Proof.
  unfold date_new.
  repeat match goal with
         | |- context [if ?b then _ else _] => destruct b
         end; intros H; try discriminate; injection H as <-; eauto.
Qed.

(** *** The pattern of the format *)

Lemma step_Some {A} (p : char -> bool) s pos g (k : Re.cont) (a : A) :
  Re.step p s pos g k = Some a ->
  exists x s', s = x :: s' /\ p x = true /\ k s' (S pos) g = Some a.
Proof.
  destruct s as [|x s']; cbn [Re.step]; [discriminate|].
  destruct (p x) eqn:Hp; [|discriminate]. intros H. now exists x, s'.
Qed.

(** Follows a successful run of the matcher back through the alternatives
    taken and the characters read. *)
Ltac inv_exec H :=
  cbn beta in H;
  lazymatch type of H with
  | match ?X with Some _ => _ | None => _ end = Some _ =>
      let E := fresh "E" in
      destruct X eqn:E;
      [ injection H as ->; inv_exec E | clear E; inv_exec H ]
  | Re.step _ _ _ _ _ = Some _ =>
      let x := fresh "c" in
      let s' := fresh "s" in
      let Hp := fresh "Hp" in
      apply step_Some in H; destruct H as (x & s' & -> & Hp & H); inv_exec H
  | Some _ = Some _ =>
      cbn in H; injection H as <- <-
  end.

(** Turns the tests the matcher made into facts about the characters. *)
Ltac tests_to_facts :=
  repeat match goal with
         | H : (_ && _)%bool = true |- _ => apply andb_prop in H as [? ?]
         | H : (_ =? _)%N = true |- _ => apply N.eqb_eq in H; subst
         | H : (_ <=? _)%N = true |- _ => apply N.leb_le in H
         | H : isdecimal _ = true |- _ =>
             let v := fresh "v" in
             let H' := fresh "Hd" in
             apply isdecimal_true in H as [v H']
         end.

Ltac norm_ch :=
  repeat match goal with
         | H : context [ch ?a] |- _ =>
             let v := eval vm_compute in (ch a) in change (ch a) with v in H
         | |- context [ch ?a] =>
             let v := eval vm_compute in (ch a) in change (ch a) with v
         end.

Lemma match_format_sound (s : str) (e : nat) (found : Re.groups) :
  Re.re_match format_regex s = Some (e, found) ->
  exists df mf yf rest dd mm yy,
    s = df ++ ch "." :: mf ++ ch "." :: yf ++ rest
    /\ length s = (e + length rest)%nat
    /\ found = [(ch "Y", yf); (ch "m", mf); (ch "d", df)]
    /\ day_field df dd /\ month_field mf mm /\ year_field yf yy.
Proof.
  unfold Re.re_match, format_regex, TimeRE_d, TimeRE_m, TimeRE_Y.
  cbn [Re.exec]. intros H.
  inv_exec H; tests_to_facts.
  all: match goal with
       | |- exists df mf yf rest dd mm yy,
           _ /\ _ /\ [(_, ?y); (_, ?m); (_, ?d)] = _ /\ _ =>
           exists d, m, y
       end.
  all: do 4 eexists; repeat split; try reflexivity.
  all: norm_ch.
  all: first [ eassumption
             | solve [ econstructor; first [lia | eassumption] ] ].
Qed.

(** Decides the next test the matcher makes, with what is known of the
    characters. *)
Ltac scrutinee t :=
  lazymatch t with
  | (if ?b then _ else _) => scrutinee b
  | (match ?x with Some _ => _ | None => _ end) => scrutinee x
  | (?a && _)%bool => scrutinee a
  | _ => t
  end.

Ltac next_test :=
  cbn [Re.exec Re.step app andb];
  lazymatch goal with
  | |- ?lhs = _ =>
      let t := scrutinee lhs in
      lazymatch t with
      | (?a =? ?b)%N => destruct (N.eqb_spec a b); [try subst a|]
      | (?a <=? ?b)%N => destruct (N.leb_spec a b)
      | isdecimal ?a =>
          tryif is_var a
          then erewrite (decimal_isdecimal a) by eassumption
          else (let v := eval vm_compute in (isdecimal a) in
                change (isdecimal a) with v)
      end
  end.

Ltac run_matcher := repeat (next_test; try (exfalso; lia)).

Lemma match_format_complete (df mf yf : str) (dd mm yy : Z) :
  day_field df dd -> month_field mf mm -> year_field yf yy ->
  Re.re_match format_regex (df ++ ch "." :: mf ++ ch "." :: yf)
  = Some (length (df ++ ch "." :: mf ++ ch "." :: yf),
          [(ch "Y", yf); (ch "m", mf); (ch "d", df)]).
Proof.
  intros Hd Hm Hy.
  unfold Re.re_match, format_regex, TimeRE_d, TimeRE_m, TimeRE_Y.
  destruct Hd, Hm, Hy.
  all: norm_ch.
  all: cbn [Re.exec Re.step app length].
  all: run_matcher.
  all: reflexivity.
Qed.

Lemma strptime_Ok_iff (s : str) (dt : date) :
  strptime s = Ok dt <-> reads_as s dt.
Proof.
  unfold strptime, reads_as. split.
  - destruct (Re.re_match format_regex s) as [[e found]|] eqn:Hm;
      [|discriminate].
    apply match_format_sound in Hm
      as (df & mf & yf & rest & dd & mm & yy & Hs & Hlen & -> & Hd & Hmo & Hy).
    destruct (Nat.eqb_spec (length s) e) as [He|He]; cbn [negb];
      [|discriminate].
    assert (rest = []) as -> by (destruct rest; [reflexivity|cbn in Hlen; lia]).
    rewrite app_nil_r in Hs.
    change (Re.group _ (ch "Y")) with yf.
    change (Re.group _ (ch "m")) with mf.
    change (Re.group _ (ch "d")) with df.
    rewrite (int_year _ _ Hy), (int_month _ _ Hmo), (int_day _ _ Hd).
    intros Hnew. apply date_new_Ok in Hnew as [-> Hv].
    exists df, mf, yf. cbn [year month day]. auto.
  - intros (df & mf & yf & -> & Hd & Hmo & Hy & Hv).
    rewrite (match_format_complete _ _ _ _ _ _ Hd Hmo Hy).
    rewrite Nat.eqb_refl. cbn [negb].
    change (Re.group _ (ch "Y")) with yf.
    change (Re.group _ (ch "m")) with mf.
    change (Re.group _ (ch "d")) with df.
    rewrite (int_year _ _ Hy), (int_month _ _ Hmo), (int_day _ _ Hd).
    apply date_new_Ok. destruct dt; auto.
Qed.

Lemma strptime_Raise (s : str) (e : exn) :
  strptime s = Raise e -> exists msg, e = ValueError msg.
Proof.
  unfold strptime.
  destruct (Re.re_match format_regex s) as [[n found]|].
  - destruct (negb _).
    + intros H; injection H as <-; eauto.
    + destruct (int (Re.group found (ch "Y"))),
        (int (Re.group found (ch "m"))), (int (Re.group found (ch "d")));
        try (intros H; injection H as <-; eauto).
      apply date_new_Raise.
  - intros H; injection H as <-; eauto.
Qed.

Lemma Birthday_init_Ok_iff (s : str) (b : Birthday) :
  Birthday_init s = Ok b <-> reads_as s (value b).
Proof.
  unfold Birthday_init. rewrite <- strptime_Ok_iff.
  destruct (strptime s) as [dt|e] eqn:Hs.
  - destruct b as [v]; cbn [value].
    split; intros H; injection H as ->; reflexivity.
  - split; [|discriminate]. destruct e; discriminate.
Qed.

Lemma Birthday_init_Raise (s : str) (e : exn) :
  Birthday_init s = Raise e ->
  e = ValueError (u "Неправильний формат дати. Використовуйте DD.MM.YYYY").
Proof.
  unfold Birthday_init.
  destruct (strptime s) as [dt|e'] eqn:Hs; [discriminate|].
  apply strptime_Raise in Hs as [msg ->]. congruence.
Qed.

(** C5, as amended.  [Birthday(value)] raises its [ValueError] unless
    [value] is a day, a month and a year separated by dots that make a date
    of the calendar, where the day and the month may be written with one
    digit or two (and the day with a blank before its digit) and the year
    has four digits.  (On every such string it succeeds, with that
    date.) *)
Theorem Birthday_init_accepts (s : str) :
  (exists b, Birthday_init s = Ok b /\ reads_as s (value b))
  \/ (Birthday_init s
      = Raise (ValueError
                 (u "Неправильний формат дати. Використовуйте DD.MM.YYYY"))
      /\ forall dt, ~ reads_as s dt).
Proof.
  destruct (Birthday_init s) as [b|e] eqn:Hb.
  - left. exists b. split; [reflexivity|]. now apply Birthday_init_Ok_iff.
  - right. split.
    + f_equal. exact (Birthday_init_Raise s e Hb).
    + intros dt Hr.
      apply (Birthday_init_Ok_iff s (mkField dt)) in Hr. congruence.
Qed.

(** C5, counterexample to the statement with zero-padded fields: a day and
    a month of one digit are accepted, so a string that is not of the form
    DD.MM.YYYY makes a birthday. *)
Lemma Birthday_init_one_digit_day_month :
  Birthday_init (u "1.3.1990") = Ok (mkField (mkdate 1990 3 1))
  /\ forall y m d, ~ ddmmyyyy (u "1.3.1990") y m d.
Proof.
  split; [vm_compute; reflexivity|].
  intros y m d (d1 & d2 & m1 & m2 & y1 & y2 & y3 & y4 & Hs & _).
  apply (f_equal (@length _)) in Hs. vm_compute in Hs. discriminate.
Qed.

(** ** What [strftime] writes *)

Lemma year_rendering_checked :
  forallb (fun n =>
             let y := Z.of_nat n in
             str_eqb (zfill 4 (str_of_nonneg y)) (digits4 y)
             && ((y <? 1000) || str_eqb (str_of_nonneg y) (digits4 y)))
          (seq 0 (Z.to_nat 10000)) = true.
Proof. vm_compute. reflexivity. Qed.

Lemma strftime_Y_digits (fill_year : bool) (y : Z) :
  0 <= y <= 9999 -> fill_year = true \/ 1000 <= y ->
  strftime_Y fill_year y = digits4 y.
Proof.
  intros Hy Hfill.
  pose proof year_rendering_checked as Hall.
  rewrite forallb_forall in Hall.
  specialize (Hall (Z.to_nat y)).
  cbv zeta in Hall. rewrite Z2Nat.id in Hall by lia.
  assert (Hin : In (Z.to_nat y) (seq 0 (Z.to_nat 10000)))
    by (apply in_seq; lia).
  apply Hall in Hin. apply andb_prop in Hin as [Hz Hp].
  unfold strftime_Y. destruct fill_year.
  - now destruct (str_eqb_spec (zfill 4 (str_of_nonneg y)) (digits4 y)).
  - destruct Hfill as [|Hge]; [discriminate|].
    destruct (Z.ltb_spec y 1000); [lia|]. cbn [orb] in Hp.
    now destruct (str_eqb_spec (str_of_nonneg y) (digits4 y)).
Qed.

Lemma isascii_digit_range (c : char) :
  isascii_digit c = true -> 48 <= Z.of_N c <= 57.
Proof.
  unfold isascii_digit. intros H. apply andb_prop in H as [H1 H2].
  apply N.leb_le in H1, H2. lia.
Qed.

Lemma two_digits_of (a b : char) :
  48 <= Z.of_N a <= 57 -> 48 <= Z.of_N b <= 57 ->
  two_digits (10 * digit a + digit b) = [a; b].
Proof.
  intros Ha Hb. unfold two_digits, digit.
  f_equal; [|f_equal]; apply N2Z.inj; rewrite Z2N.id;
    Z.div_mod_to_equations; lia.
Qed.

Lemma digits4_of (a b c d : char) :
  48 <= Z.of_N a <= 57 -> 48 <= Z.of_N b <= 57 ->
  48 <= Z.of_N c <= 57 -> 48 <= Z.of_N d <= 57 ->
  digits4 (1000 * digit a + 100 * digit b + 10 * digit c + digit d)
  = [a; b; c; d].
Proof.
  intros Ha Hb Hc Hd. unfold digits4, digit.
  assert (Hch : forall (x : char) (v : Z), v = Z.of_N x -> Z.to_N v = x)
    by (intros x v ->; apply N2Z.id).
  rewrite (Hch a), (Hch b), (Hch c), (Hch d);
    first [reflexivity | Z.div_mod_to_equations; lia].
Qed.

Lemma days_in_month_le_31 (y m : Z) : days_in_month y m <= 31.
Proof.
  unfold days_in_month.
  destruct ((m =? 2) && is_leap y)%bool; [lia|].
  unfold DAYS_IN_MONTH.
  generalize (Z.to_nat m); intros n.
  do 13 (destruct n as [|n]; [cbn; lia|]).
  destruct n; cbn; lia.
Qed.

(** A date written [DD.MM.YYYY] is read as that date. *)
Lemma ddmmyyyy_reads_as (s : str) (y m d : Z) :
  ddmmyyyy s y m d -> valid_date y m d -> reads_as s (mkdate y m d).
Proof.
  intros (d1 & d2 & m1 & m2 & y1 & y2 & y3 & y4 & -> & Hdig & -> & -> & ->)
         (Hy & Hm & Hd).
  cbn [forallb] in Hdig.
  repeat (apply andb_prop in Hdig as [?%isascii_digit_range Hdig]).
  pose proof (days_in_month_le_31
                (1000 * digit y1 + 100 * digit y2 + 10 * digit y3 + digit y4)
                (10 * digit m1 + digit m2)) as H31.
  exists [d1; d2], [m1; m2], [y1; y2; y3; y4]. cbn [year month day].
  unfold digit in *.
  refine (conj eq_refl (conj _ (conj _ (conj _ (conj Hy (conj Hm Hd)))))).
  - assert (Hc : Z.of_N d1 = 48 \/ 49 <= Z.of_N d1 <= 50 \/ Z.of_N d1 = 51)
      by lia.
    destruct Hc as [Hc|[Hc|Hc]].
    + replace d1 with (ch "0") by (apply N2Z.inj; cbn; lia).
      replace (10 * (Z.of_N (ch "0") - 48) + (Z.of_N d2 - 48))
        with (digit d2) by (unfold digit; cbn; lia).
      apply day_zero. lia.
    + apply (day_tens d1 d2 (Z.of_N d2 - 48)); [lia|].
      apply decimal_digit. lia.
    + replace d1 with (ch "3") by (apply N2Z.inj; cbn; lia).
      replace (10 * (Z.of_N (ch "3") - 48) + (Z.of_N d2 - 48))
        with (30 + digit d2) by (unfold digit; cbn; lia).
      apply day_thirty. lia.
  - assert (Hc : Z.of_N m1 = 48 \/ Z.of_N m1 = 49) by lia.
    destruct Hc as [Hc|Hc].
    + replace m1 with (ch "0") by (apply N2Z.inj; cbn; lia).
      replace (10 * (Z.of_N (ch "0") - 48) + (Z.of_N m2 - 48))
        with (digit m2) by (unfold digit; cbn; lia).
      apply month_zero. lia.
    + replace m1 with (ch "1") by (apply N2Z.inj; cbn; lia).
      replace (10 * (Z.of_N (ch "1") - 48) + (Z.of_N m2 - 48))
        with (10 + digit m2) by (unfold digit; cbn; lia).
      apply month_ten. lia.
  - apply (year_digits y1 y2 y3 y4); apply decimal_digit; lia.
Qed.

(** C6, as amended.  A string written [DD.MM.YYYY] that is a date of the
    calendar makes a birthday, and the birthday is written back as the same
    string when its year has four significant digits (1000 and later), or,
    for every year, when the C library fills [%Y] with zeros. *)
Theorem Birthday_round_trip (fill_year : bool) (s : str) (y m d : Z) :
  ddmmyyyy s y m d -> valid_date y m d ->
  fill_year = true \/ 1000 <= y ->
  Birthday_init s = Ok (mkField (mkdate y m d))
  /\ Birthday_str fill_year (mkField (mkdate y m d)) = s.
Proof.
  intros Hs Hv Hfill. split.
  - apply Birthday_init_Ok_iff. cbn [value]. now apply ddmmyyyy_reads_as.
  - destruct Hs as (d1 & d2 & m1 & m2 & y1 & y2 & y3 & y4
                    & -> & Hdig & -> & -> & ->).
    cbn [forallb] in Hdig.
    repeat (apply andb_prop in Hdig as [?%isascii_digit_range Hdig]).
    unfold Birthday_str, strftime. cbn [value year month day].
    rewrite strftime_Y_digits by (unfold valid_date in Hv; lia || tauto).
    rewrite !two_digits_of, digits4_of by assumption. reflexivity.
Qed.

Lemma Birthday_round_trip_witness :
  Birthday_init (u "15.03.1990") = Ok (mkField (mkdate 1990 3 15))
  /\ Birthday_str false (mkField (mkdate 1990 3 15)) = u "15.03.1990".
Proof.
  apply (Birthday_round_trip false (u "15.03.1990") 1990 3 15).
  - exists (ch "1"), (ch "5"), (ch "0"), (ch "3"),
      (ch "1"), (ch "9"), (ch "9"), (ch "0").
    repeat split; reflexivity.
  - unfold valid_date. vm_compute. intuition discriminate.
  - right. lia.
Defined.

(** C6, counterexample to the statement for every date: where [%Y] is not
    filled (glibc), a year before 1000 is written back without its leading
    zeros. *)
Lemma Birthday_year_999_not_round_trip :
  ddmmyyyy (u "02.01.0999") 999 1 2 /\ valid_date 999 1 2
  /\ Birthday_init (u "02.01.0999") = Ok (mkField (mkdate 999 1 2))
  /\ Birthday_str false (mkField (mkdate 999 1 2)) = u "02.01.999"
  /\ u "02.01.999" <> u "02.01.0999".
Proof.
  split; [|split; [|split; [|split]]].
  - exists (ch "0"), (ch "2"), (ch "0"), (ch "1"),
      (ch "0"), (ch "9"), (ch "9"), (ch "9").
    repeat split; reflexivity.
  - unfold valid_date. vm_compute. intuition discriminate.
  - vm_compute. reflexivity.
  - vm_compute. reflexivity.
  - vm_compute. discriminate.
Qed.

(** ** Name *)

(** C7, as amended.  [Name(value)] raises its [ValueError] exactly when
    [value] is the empty string; on every other string, those made of white
    space included, it succeeds and holds the string. *)
Theorem Name_init_iff_nonempty (s : str) :
  (s = [] /\ Name_init s = Raise (ValueError (u "Ім'я не може бути порожнім")))
  \/ (s <> [] /\ Name_init s = Ok (mkField s)).
Proof.
  destruct s as [|c s]; [left|right]; split;
    first [reflexivity | discriminate].
Qed.

(** C7, counterexample to the statement with white space: a name of one
    blank is accepted. *)
Lemma Name_init_blank_accepted :
  forallb isspace (u " ") = true /\ Name_init (u " ") = Ok (mkField (u " ")).
Proof. split; reflexivity. Qed.

Lemma Name_init_Raise (s : str) (e : exn) :
  Name_init s = Raise e -> exists msg, e = ValueError msg.
Proof. destruct s; [|discriminate]. intros H; injection H as <-; eauto. Qed.

Lemma Phone_init_Raise (s : str) (e : exn) :
  Phone_init s = Raise e -> exists msg, e = ValueError msg.
Proof.
  unfold Phone_init. destruct (negb _); [|discriminate].
  intros H; injection H as <-; eauto.
Qed.

Lemma Phone_init_Ok (s : str) (p : Phone) :
  Phone_init s = Ok p -> p = mkField s /\ ten_decimal_digits s.
Proof.
  destruct (ten_decimal_digits_dec s) as [Ht|Hn].
  - rewrite (Phone_init_valid s Ht). intros H; injection H as <-. auto.
  - rewrite (Phone_init_invalid s Hn). discriminate.
Qed.

(** ** Record *)

(** [edit_phone] never raises the error of the phone validator: it returns
    when a phone has the old value, and says that none has otherwise; the
    new value is not looked at. *)
Lemma edit_phone_outcome (old_phone new_phone : str) (self : Record_) :
  (exists ps,
      edit_phone_loop (phones self) old_phone new_phone = Some ps
      /\ In new_phone (map value ps)
      /\ edit_phone old_phone new_phone self = (Ok tt, set_phones ps self))
  \/ (~ In old_phone (map value (phones self))
      /\ edit_phone old_phone new_phone self
         = (Raise (ValueError (u "Номер телефону не знайдено")), self)).
Proof.
  unfold edit_phone.
  assert (Hloop : forall ps,
             (exists ps', edit_phone_loop ps old_phone new_phone = Some ps'
                          /\ In new_phone (map value ps'))
             \/ (edit_phone_loop ps old_phone new_phone = None
                 /\ ~ In old_phone (map value ps))).
  { induction ps as [|p ps IH]; cbn [edit_phone_loop map In].
    - right. tauto.
    - destruct (str_eqb_spec (value p) old_phone) as [Heq|Hne].
      + left. eexists. split; [reflexivity|]. now left.
      + destruct IH as [(ps' & -> & Hin)|[-> Hnot]].
        * left. eexists. split; [reflexivity|]. now right.
        * right. split; [reflexivity|]. tauto. }
  destruct (Hloop (phones self)) as [(ps & Hps & Hin)|[Hnone Hnot]].
  - left. exists ps. rewrite Hps. auto.
  - right. rewrite Hnone. auto.
Qed.

(** C1: the code at the failing input.  The record has the phone
    1234567890; [edit_phone] is given that phone and the new value 123,
    which is not a phone.  The call returns normally and the record now
    holds 123. *)
Theorem edit_phone_takes_invalid_phone :
  ~ ten_decimal_digits (u "123")
  /\ Phone_init (u "123")
     = Raise (ValueError (u "Номер телефону має містити рівно 10 цифр"))
  /\ edit_phone (u "1234567890") (u "123") ann
     = (Ok tt, mkRecord (mkField (u "Ann")) [mkField (u "123")] None).
Proof.
  split; [|split].
  - intros [Hlen _]. vm_compute in Hlen. discriminate.
  - vm_compute. reflexivity.
  - vm_compute. reflexivity.
Qed.

Lemma add_phone_keeps_valid (raw : str) (r : Record_) :
  phones_valid r -> phones_valid (snd (add_phone raw r)).
Proof.
  unfold add_phone, bindM, lift, phones_valid.
  destruct (Phone_init raw) as [p|e] eqn:Hp; cbn [snd]; [|auto].
  apply Phone_init_Ok in Hp as [-> Ht]. intros Hv. cbn [set_phones phones].
  apply Forall_app. split; [exact Hv|]. constructor; [exact Ht|constructor].
Qed.

Lemma delete_phone_keeps_valid (raw : str) (r : Record_) :
  phones_valid r -> phones_valid (snd (delete_phone raw r)).
Proof.
  unfold delete_phone, phones_valid. cbn [snd set_phones phones].
  rewrite !Forall_forall. intros Hv p Hin.
  apply filter_In in Hin as [Hin _]. now apply Hv.
Qed.

Lemma add_birthday_keeps_valid (raw : str) (r : Record_) :
  phones_valid r -> phones_valid (snd (Record_add_birthday raw r)).
Proof.
  unfold Record_add_birthday, bindM, lift, phones_valid.
  destruct (Birthday_init raw); cbn [snd set_birthday phones]; auto.
Qed.

Lemma edit_phone_keeps_valid (old_raw new_raw : str) (r : Record_) :
  ten_decimal_digits new_raw ->
  phones_valid r -> phones_valid (snd (edit_phone old_raw new_raw r)).
Proof.
  intros Hnew. unfold edit_phone, phones_valid.
  assert (Hloop : forall ps ps',
             edit_phone_loop ps old_raw new_raw = Some ps' ->
             Forall (fun p => ten_decimal_digits (value p)) ps ->
             Forall (fun p => ten_decimal_digits (value p)) ps').
  { induction ps as [|p ps IH]; cbn [edit_phone_loop]; [discriminate|].
    intros ps' Hs Hv. inversion Hv as [|? ? Hp Hps]; subst.
    destruct (str_eqb (value p) old_raw).
    - injection Hs as <-. constructor; assumption.
    - destruct (edit_phone_loop ps old_raw new_raw) as [rest|] eqn:Hr;
        [|discriminate].
      injection Hs as <-. constructor; [assumption|]. now apply IH. }
  destruct (edit_phone_loop (phones r) old_raw new_raw) as [ps|] eqn:Hl;
    cbn [snd set_phones phones]; [|auto].
  now apply Hloop.
Qed.

(** The invariant of the phones holds as long as [edit_phone] is given
    phones only. *)
Lemma run_operations_keeps_valid (ops : list operation) :
  Forall (fun o => match o with
                   | op_edit_phone _ new_raw => ten_decimal_digits new_raw
                   | _ => True
                   end) ops ->
  forall r, phones_valid r -> phones_valid (run_operations ops r).
Proof.
  unfold run_operations.
  induction 1 as [|o ops Ho _ IH]; intros r Hr; cbn [fold_left];
    [exact Hr|].
  apply IH. destruct o; cbn [apply_operation].
  - now apply add_phone_keeps_valid.
  - now apply delete_phone_keeps_valid.
  - now apply edit_phone_keeps_valid.
  - now apply add_birthday_keeps_valid.
Qed.

(** C2: the code at the failing input.  A new record gets the phone
    1234567890 and then [edit_phone] changes it to 123: the record that had
    only phones now has a phone that is not one. *)
Theorem phones_invariant_broken_by_edit :
  exists r0,
    Record_init (u "Ann") = Ok r0
    /\ phones_valid r0
    /\ phones
         (run_operations
            [op_add_phone (u "1234567890");
             op_edit_phone (u "1234567890") (u "123")] r0)
       = [mkField (u "123")]
    /\ ~ phones_valid
         (run_operations
            [op_add_phone (u "1234567890");
             op_edit_phone (u "1234567890") (u "123")] r0).
Proof.
  eexists. split; [reflexivity|]. split; [constructor|].
  split; [vm_compute; reflexivity|].
  intros Hv. unfold phones_valid in Hv.
  replace (phones _) with [mkField (u "123") : Phone] in Hv
    by (vm_compute; reflexivity).
  inversion Hv as [|? ? [Hlen _] _]. vm_compute in Hlen. discriminate.
Qed.

(** ** AddressBook *)

Lemma replace_year_valid (b : date) (y : Z) :
  valid_date y (month b) (day b) ->
  replace_year b y = Ok (mkdate y (month b) (day b)).
Proof. intros Hv. unfold replace_year. apply date_new_Ok. auto. Qed.

(** Where every birthday is a date of the year of [today] too, the query
    returns the records that qualify, in the order of the book. *)
Lemma upcoming_loop_filter (days : Z) (today : date) :
  forall (records upcoming : list Record_),
    (forall r b, In r records -> birthday r = Some b ->
                 valid_date (year today) (month (value b)) (day (value b))) ->
    upcoming_loop records days today upcoming
    = Ok (upcoming ++ filter (qualifies days today) records).
Proof.
  induction records as [|r records IH]; intros upcoming Hv;
    cbn [upcoming_loop filter].
  - now rewrite app_nil_r.
  - assert (Hrest : forall r' b, In r' records -> birthday r' = Some b ->
                valid_date (year today) (month (value b)) (day (value b)))
      by (intros r' b Hin; apply Hv; now right).
    unfold qualifies at 1. destruct (birthday r) as [b|] eqn:Hb.
    + rewrite (replace_year_valid (value b) (year today))
        by (apply (Hv r b); [now left|exact Hb]).
      cbn [bind]. unfold sub_days, days_until. cbn [toordinal year month day].
      fold (toordinal today).
      destruct (_ && _)%bool.
      * rewrite IH by exact Hrest. now rewrite <- app_assoc.
      * now apply IH.
    + now apply IH.
Qed.

Lemma get_upcoming_birthdays_filter (data : AddressBook) (days : Z)
      (today : date) :
  (forall r b, In r (dict_values data) -> birthday r = Some b ->
               valid_date (year today) (month (value b)) (day (value b))) ->
  get_upcoming_birthdays data days today
  = Ok (filter (qualifies days today) (dict_values data)).
Proof.
  intros Hv. unfold get_upcoming_birthdays.
  now rewrite upcoming_loop_filter.
Qed.

(** The book of the failing inputs is one the handlers build. *)
Lemma leap_book_reached :
  snd (add_birthday [u "Ann"; u "29.02.2000"]
      (snd (add_contact [u "Ann"; u "1234567890"]
      (snd (add_birthday [u "Bob"; u "26.02.1990"]
      (snd (add_contact [u "Bob"; u "0501234567"] []))))))) = leap_book.
Proof. vm_compute. reflexivity. Qed.

(** C3: the code at the failing input.  On 25 February 2023 the book holds
    Bob, born on 26 February, and Ann, born on 29 February 2000.  Bob's
    birthday is one day away, so a query for 7 days has to return him; the
    query raises instead. *)
Theorem get_upcoming_birthdays_fails_on_leap_book :
  days_until (mkdate 2023 2 25) (mkField (mkdate 1990 2 26)) = 1
  /\ qualifies 7 (mkdate 2023 2 25) bob_feb_26 = true
  /\ get_upcoming_birthdays leap_book 7 (mkdate 2023 2 25)
     = Raise (ValueError (u "day is out of range for month")).
Proof. repeat split; vm_compute; reflexivity. Qed.

Lemma upcoming_loop_raises (days : Z) (today : date) (record : Record_)
      (b : Birthday) :
  birthday record = Some b -> month (value b) = 2 -> day (value b) = 29 ->
  is_leap (year today) = false ->
  forall (records upcoming : list Record_),
    In record records ->
    exists msg,
      upcoming_loop records days today upcoming = Raise (ValueError msg).
Proof.
  intros Hb Hm Hd Hleap.
  induction records as [|r records IH]; intros upcoming Hin;
    [destruct Hin|].
  cbn [upcoming_loop].
  destruct (birthday r) as [b'|] eqn:Hb'.
  - destruct (replace_year (value b') (year today)) as [bday|e] eqn:Hr.
    + destruct Hin as [->|Hin].
      * exfalso. rewrite Hb in Hb'. injection Hb' as <-.
        apply date_new_Ok in Hr as [_ (_ & _ & Hday)].
        rewrite Hm, Hd in Hday. unfold days_in_month in Hday.
        rewrite Hleap in Hday. vm_compute in Hday.
        destruct Hday as [_ Hday]. now apply Hday.
      * cbn [bind]. destruct (_ && _)%bool; now apply IH.
    + apply date_new_Raise in Hr as [msg ->]. cbn [bind]. eauto.
  - destruct Hin as [->|Hin]; [congruence|]. now apply IH.
Qed.

(** C10.  When a record of the book has its birthday on 29 February and the
    year of [today] is not a leap year, [get_upcoming_birthdays] raises a
    [ValueError] (from [replace]) and returns no list. *)
Theorem get_upcoming_birthdays_raises_on_leap_day
        (data : AddressBook) (days : Z) (today : date)
        (record : Record_) (b : Birthday) :
  In record (dict_values data) -> birthday record = Some b ->
  month (value b) = 2 -> day (value b) = 29 ->
  is_leap (year today) = false ->
  exists msg,
    get_upcoming_birthdays data days today = Raise (ValueError msg).
Proof.
  intros Hin Hb Hm Hd Hleap. unfold get_upcoming_birthdays.
  now apply (upcoming_loop_raises days today record b).
Qed.

Lemma get_upcoming_birthdays_raises_on_leap_day_witness :
  exists msg,
    get_upcoming_birthdays leap_book 7 (mkdate 2023 2 25)
    = Raise (ValueError msg).
Proof.
  apply (get_upcoming_birthdays_raises_on_leap_day
           leap_book 7 (mkdate 2023 2 25) ann_feb_29
           (mkField (mkdate 2000 2 29))).
  - right. left. reflexivity.
  - reflexivity.
  - reflexivity.
  - reflexivity.
  - reflexivity.
Defined.

(** ** The handlers *)

Lemma only_ValueError_handled {A} (o : outcome A) :
  only_ValueError o -> handled o.
Proof. destruct o as [|[]]; cbn; auto. Qed.

Lemma input_error_returns (func : list str -> M AddressBook str)
      (args : list str) (book : AddressBook) :
  handled (fst (func args book)) ->
  exists s book', input_error func args book = (Ok s, book').
Proof.
  unfold input_error. destruct (func args book) as [[s|[msg| |msg|msg]] book'];
    cbn [fst handled]; intros H; eauto. destruct H.
Qed.

Lemma add_phone_only_ValueError (phone : str) (self : Record_) :
  only_ValueError (fst (add_phone phone self)).
Proof.
  unfold add_phone, bindM, lift.
  destruct (Phone_init phone) as [p|e] eqn:Hp; cbn; [exact I|].
  now apply Phone_init_Raise in Hp as [msg ->].
Qed.

Lemma edit_phone_only_ValueError (old_phone new_phone : str)
      (self : Record_) :
  only_ValueError (fst (edit_phone old_phone new_phone self)).
Proof.
  destruct (edit_phone_outcome old_phone new_phone self)
    as [(ps & _ & _ & ->)|[_ ->]]; exact I.
Qed.

Lemma add_birthday_only_ValueError (b : str) (self : Record_) :
  only_ValueError (fst (Record_add_birthday b self)).
Proof.
  unfold Record_add_birthday, bindM, lift.
  destruct (Birthday_init b) as [bd|e] eqn:Hb; cbn; [exact I|].
  now apply Birthday_init_Raise in Hb as ->.
Qed.

Lemma upcoming_loop_only_ValueError (days : Z) (today : date) :
  forall (records upcoming : list Record_),
    only_ValueError (upcoming_loop records days today upcoming).
Proof.
  induction records as [|r records IH]; intros upcoming;
    cbn [upcoming_loop]; [exact I|].
  destruct (birthday r) as [b|]; [|apply IH].
  destruct (replace_year (value b) (year today)) as [bday|e] eqn:Hr;
    cbn [bind].
  - destruct (_ && _)%bool; apply IH.
  - now apply date_new_Raise in Hr as [msg ->].
Qed.

Lemma call_fst {A} (key : str) (record : Record_) (method : M Record_ A)
      (book : AddressBook) :
  fst (call key record method book) = fst (method record).
Proof. unfold call. now destruct (method record). Qed.

Lemma bindM_handled {S A B} (m : M S A) (f : A -> M S B) (s : S) :
  handled (fst (m s)) ->
  (forall a s', handled (fst (f a s'))) ->
  handled (fst (bindM m f s)).
Proof.
  unfold bindM. destruct (m s) as [[a|e] s']; cbn [fst]; auto.
Qed.

Lemma add_contact_body_handled (args : list str) (book : AddressBook) :
  handled (fst (add_contact_body args book)).
Proof.
  destruct args as [|n [|phone extra]]; try exact I.
  cbn [add_contact_body].
  apply bindM_handled; [exact I|]. intros book0 book1.
  apply bindM_handled.
  - destruct (find_record book0 n); [exact I|].
    apply bindM_handled.
    + unfold lift. cbn [fst]. unfold Record_init.
      destruct (Name_init n) as [nm|e] eqn:Hn; [exact I|].
      now apply Name_init_Raise in Hn as [msg ->].
    + intros record book2. apply bindM_handled; [exact I|]. intros; exact I.
  - intros found book2. apply bindM_handled; [|intros; exact I].
    destruct phone; [exact I|].
    rewrite call_fst. apply only_ValueError_handled, add_phone_only_ValueError.
Qed.

Lemma change_contact_body_handled (args : list str) (book : AddressBook) :
  handled (fst (change_contact_body args book)).
Proof.
  destruct args as [|n [|old_phone [|new_phone [|x extra]]]]; try exact I.
  cbn [change_contact_body].
  apply bindM_handled; [exact I|]. intros book0 book1.
  destruct (find_record book0 n); [|exact I].
  apply bindM_handled; [|intros; exact I].
  rewrite call_fst. apply only_ValueError_handled, edit_phone_only_ValueError.
Qed.

Lemma show_phone_body_handled (args : list str) (book : AddressBook) :
  handled (fst (show_phone_body args book)).
Proof.
  destruct args as [|n extra]; [exact I|].
  cbn [show_phone_body]. unfold bindM, get.
  destruct (find_record book n); exact I.
Qed.

Lemma add_birthday_body_handled (args : list str) (book : AddressBook) :
  handled (fst (add_birthday_body args book)).
Proof.
  destruct args as [|n [|b [|x extra]]]; try exact I.
  cbn [add_birthday_body].
  apply bindM_handled; [exact I|]. intros book0 book1.
  destruct (find_record book0 n); [|exact I].
  apply bindM_handled; [|intros; exact I].
  rewrite call_fst.
  apply only_ValueError_handled, add_birthday_only_ValueError.
Qed.

Lemma show_birthday_body_handled (fill_year : bool) (args : list str)
      (book : AddressBook) :
  handled (fst (show_birthday_body fill_year args book)).
Proof.
  destruct args as [|n extra]; [exact I|].
  cbn [show_birthday_body]. unfold bindM, get.
  destruct (find_record book n); exact I.
Qed.

Lemma birthdays_body_handled (fill_year : bool) (today : date)
      (args : list str) (book : AddressBook) :
  handled (fst (birthdays_body fill_year today args book)).
Proof.
  unfold birthdays_body.
  apply bindM_handled; [exact I|]. intros book0 book1.
  apply bindM_handled.
  - unfold lift. cbn [fst].
    apply only_ValueError_handled, upcoming_loop_only_ValueError.
  - intros upcoming book2. destruct upcoming; exact I.
Qed.

Lemma show_all_returns (fill_year : bool) (book : AddressBook) :
  exists s, show_all fill_year book = (Ok s, book).
Proof. unfold show_all, bindM, get, ret. destruct book; eauto. Qed.

(** C8.  Whatever the command, the arguments, the book and the day, the
    handler returns a string: no exception leaves it, those of the
    validators, of a missing phone and of missing arguments included. *)
Theorem handle_returns_string (fill_year : bool) (c : command)
        (today : date) (args : list str) (book : AddressBook) :
  exists s book', handle fill_year c today args book = (Ok s, book').
Proof.
  destruct c; cbn [handle].
  - apply input_error_returns, add_contact_body_handled.
  - apply input_error_returns, change_contact_body_handled.
  - apply input_error_returns, show_phone_body_handled.
  - destruct (show_all_returns fill_year book) as [s ->]. eauto.
  - apply input_error_returns, add_birthday_body_handled.
  - apply input_error_returns, show_birthday_body_handled.
  - apply (input_error_returns (birthdays_body fill_year today)),
      birthdays_body_handled.
Qed.

Lemma dict_set_absent (data : AddressBook) (key : str) (v : Record_) :
  dict_get data key = None -> dict_set data key v = data ++ [(key, v)].
Proof.
  induction data as [|[k w] data IH]; cbn [dict_get dict_set app];
    [reflexivity|].
  destruct (str_eqb k key); [discriminate|].
  intros H. now rewrite IH.
Qed.

Lemma dict_set_twice (data : AddressBook) (key : str) (v v' : Record_) :
  dict_set (dict_set data key v) key v' = dict_set data key v'.
Proof.
  induction data as [|[k w] data IH]; cbn [dict_set].
  - now rewrite str_eqb_refl.
  - destruct (str_eqb k key) eqn:Hk; cbn [dict_set]; rewrite Hk;
      [reflexivity|now rewrite IH].
Qed.

Lemma dict_get_set (data : AddressBook) (key : str) (v : Record_) :
  dict_get (dict_set data key v) key = Some v.
Proof.
  induction data as [|[k w] data IH]; cbn [dict_set dict_get].
  - now rewrite str_eqb_refl.
  - destruct (str_eqb k key) eqn:Hk; cbn [dict_get]; rewrite Hk;
      [reflexivity|exact IH].
Qed.

(** C9, as amended.  When [add_contact] is called with a name that is not
    empty and not in the book, and a phone argument that is not empty and
    not ten decimal digits, it returns the error string of the phone
    validator, and the book has got, at its end, a record of that name
    without phones: the record is put in the book before the phone is
    validated. *)
Theorem add_contact_invalid_phone_inserts
        (n phone : str) (extra : list str) (book : AddressBook) :
  n <> [] -> phone <> [] -> find_record book n = None ->
  ~ ten_decimal_digits phone ->
  add_contact (n :: phone :: extra) book
  = (Ok (u "Помилка: " ++ u "Номер телефону має містити рівно 10 цифр"),
     book ++ [(n, mkRecord (mkField n) [] None)])
  /\ find_record (book ++ [(n, mkRecord (mkField n) [] None)]) n
     = Some (mkRecord (mkField n) [] None).
Proof.
  intros Hn Hphone Hfind Hbad.
  assert (Hset : dict_set book n (mkRecord (mkField n) [] None)
                 = book ++ [(n, mkRecord (mkField n) [] None)])
    by now apply dict_set_absent.
  split.
  - unfold add_contact, input_error. cbn [add_contact_body].
    unfold bindM at 1. cbn [get]. rewrite Hfind.
    destruct n as [|c n]; [congruence|].
    destruct phone as [|p phone]; [congruence|].
    unfold call, add_phone, add_record, Record_init, bindM, lift, ret.
    cbn [Name_init bind value name fst snd].
    rewrite (Phone_init_invalid (p :: phone) Hbad).
    cbv beta iota. rewrite dict_set_twice, Hset. reflexivity.
  - rewrite <- Hset. apply dict_get_set.
Qed.

Lemma add_contact_invalid_phone_inserts_witness :
  add_contact [u "Ann"; u "123"] []
  = (Ok (u "Помилка: " ++ u "Номер телефону має містити рівно 10 цифр"),
     [(u "Ann", mkRecord (mkField (u "Ann")) [] None)])
  /\ find_record [(u "Ann", mkRecord (mkField (u "Ann")) [] None)] (u "Ann")
     = Some (mkRecord (mkField (u "Ann")) [] None).
Proof.
  apply (add_contact_invalid_phone_inserts (u "Ann") (u "123") [] []).
  - discriminate.
  - discriminate.
  - reflexivity.
  - intros [Hlen _]. vm_compute in Hlen. discriminate.
Defined.

(** C9, counterexample to the statement for every name and phone.  With an
    empty phone argument the phone is not validated at all and the call
    answers that the contact was added; with an empty name the record is
    never made and the book stays as it was. *)
Lemma add_contact_empty_phone_or_name :
  (find_record [] (u "Ann") = None
   /\ ~ ten_decimal_digits []
   /\ add_contact [u "Ann"; []] []
      = (Ok (u "Контакт додано."),
         [(u "Ann", mkRecord (mkField (u "Ann")) [] None)]))
  /\ (find_record [] [] = None
      /\ ~ ten_decimal_digits (u "abc")
      /\ add_contact [[]; u "abc"] []
         = (Ok (u "Помилка: " ++ u "Ім'я не може бути порожнім"), [])).
Proof.
  split; (split; [reflexivity|split]).
  - intros [Hlen _]. discriminate.
  - vm_compute. reflexivity.
  - intros [Hlen _]. vm_compute in Hlen. discriminate.
  - vm_compute. reflexivity.
Qed.

(** * Further properties of the program *)

Example main_session :
  main false
       [(mkdate 2023 2 25, u "hello");
        (mkdate 2023 2 25, u "  add Bob   0501234567 ");
        (mkdate 2023 2 25, u "add-birthday Bob 26.02.1990");
        (mkdate 2023 2 25, u "birthdays");
        (mkdate 2023 2 25, u "Hello");
        (mkdate 2023 2 25, u "exit");
        (mkdate 2023 2 25, u "all")]
  = ([Printed (u "Ласкаво просимо до асистента!");
      Asked (u "Введіть команду: "); Printed (u "Чим можу допомогти?");
      Asked (u "Введіть команду: "); Printed (u "Контакт додано.");
      Asked (u "Введіть команду: "); Printed (u "День народження додано");
      Asked (u "Введіть команду: ");
      Printed (u "Найближчі дні народження:" ++ [10%N]
               ++ u "Bob: 26.02.1990" ++ [10%N]);
      Asked (u "Введіть команду: "); Printed (u "Неправильна команда.");
      Asked (u "Введіть команду: "); Printed (u "До побачення!")],
     [(u "Bob", bob_feb_26)], Closed).
Proof. vm_compute. reflexivity. Qed.

(** ** The methods of a record *)

(** X1.  [add_phone] either puts the phone at the end of the list, after
    the phones the record has (a phone it has already is added again), or,
    when the string is not a phone, raises the error of the validator and
    leaves the record as it was.  The name and the birthday are not
    touched. *)
Theorem add_phone_appends_or_leaves (phone : str) (self : Record_) :
  (ten_decimal_digits phone
   /\ add_phone phone self
      = (Ok tt,
         mkRecord (name self) (phones self ++ [mkField phone])
                  (birthday self)))
  \/ (~ ten_decimal_digits phone
      /\ add_phone phone self
         = (Raise (ValueError (u "Номер телефону має містити рівно 10 цифр")),
            self)).
Proof.
  unfold add_phone, bindM, lift.
  destruct (ten_decimal_digits_dec phone) as [Ht|Hn]; [left|right];
    (split; [assumption|]).
  - now rewrite (Phone_init_valid phone Ht).
  - now rewrite (Phone_init_invalid phone Hn).
Qed.

(** X2.  [delete_phone] never raises.  It removes every copy of the phone
    and keeps the other phones (and the name and the birthday); when the
    record has no such phone it is left as it was. *)
Theorem delete_phone_removes_every_copy (phone : str) (self : Record_) :
  exists ps,
    delete_phone phone self
    = (Ok tt, mkRecord (name self) ps (birthday self))
    /\ ~ In phone (map value ps)
    /\ (forall p, In p ps <-> In p (phones self) /\ value p <> phone)
    /\ (~ In phone (map value (phones self)) ->
        mkRecord (name self) ps (birthday self) = self).
Proof.
  eexists. split; [reflexivity|].
  assert (Hfilter : forall p,
             In p (filter (fun p => negb (str_eqb (value p) phone))
                          (phones self))
             <-> In p (phones self) /\ value p <> phone).
  { intros p. rewrite filter_In.
    destruct (str_eqb_spec (value p) phone); cbn [negb];
      intuition congruence. }
  split; [|split].
  - rewrite in_map_iff. intros (p & Hv & Hin).
    apply Hfilter in Hin as [_ Hne]. contradiction.
  - exact Hfilter.
  - intros Hnot. clear Hfilter.
    destruct self as [n ps b]. cbn [name phones birthday] in *.
    f_equal. induction ps as [|p ps IH]; [reflexivity|].
    cbn [filter map In] in Hnot |- *.
    destruct (str_eqb_spec (value p) phone) as [Heq|Hne]; cbn [negb].
    + exfalso. apply Hnot. now left.
    + f_equal. apply IH. intros Hin. apply Hnot. now right.
Qed.

(** X3.  [edit_phone] changes the first phone that has the old value, and
    only that one: the phones before it, the phones after it (other copies
    of the old value among them), the name and the birthday stay.  When no
    phone has the old value it raises its [ValueError] and the record is as
    it was. *)
Theorem edit_phone_changes_first_match (old_phone new_phone : str)
        (self : Record_) :
  (exists before p after,
      phones self = before ++ p :: after
      /\ value p = old_phone
      /\ ~ In old_phone (map value before)
      /\ edit_phone old_phone new_phone self
         = (Ok tt,
            mkRecord (name self) (before ++ mkField new_phone :: after)
                     (birthday self)))
  \/ (~ In old_phone (map value (phones self))
      /\ edit_phone old_phone new_phone self
         = (Raise (ValueError (u "Номер телефону не знайдено")), self)).
Proof.
  unfold edit_phone, set_phones.
  assert (Hloop : forall ps,
             (exists before p after,
                 ps = before ++ p :: after /\ value p = old_phone
                 /\ ~ In old_phone (map value before)
                 /\ edit_phone_loop ps old_phone new_phone
                    = Some (before ++ mkField new_phone :: after))
             \/ (~ In old_phone (map value ps)
                 /\ edit_phone_loop ps old_phone new_phone = None)).
  { induction ps as [|q ps IH]; cbn [edit_phone_loop map In].
    - right. tauto.
    - destruct (str_eqb_spec (value q) old_phone) as [Heq|Hne].
      + left. exists [], q, ps. cbn [app map In].
        split; [reflexivity|split; [assumption|split; [tauto|reflexivity]]].
      + destruct IH as [(before & p & after & -> & Hp & Hb & ->)|[Hnot ->]].
        * left. exists (q :: before), p, after. cbn [app map In].
          split; [reflexivity|split; [assumption|split; [tauto|reflexivity]]].
        * right. split; [tauto|reflexivity]. }
  destruct (Hloop (phones self))
    as [(before & p & after & Hps & Hp & Hb & ->)|[Hnot ->]].
  - left. exists before, p, after. auto.
  - right. auto.
Qed.

(** X4.  [add_birthday] of a record either sets the birthday to the date
    the string is read as, in place of the one the record had, or, when the
    string is not read as a date, raises the error of [Birthday] and leaves
    the record, its former birthday included, as it was.  The name and the
    phones are not touched. *)
Theorem add_birthday_replaces_or_leaves (raw : str) (self : Record_) :
  (exists dt,
      reads_as raw dt
      /\ Record_add_birthday raw self
         = (Ok tt, mkRecord (name self) (phones self) (Some (mkField dt))))
  \/ ((forall dt, ~ reads_as raw dt)
      /\ Record_add_birthday raw self
         = (Raise
              (ValueError
                 (u "Неправильний формат дати. Використовуйте DD.MM.YYYY")),
            self)).
Proof.
  unfold Record_add_birthday, bindM, lift.
  destruct (Birthday_init raw) as [[dt]|e] eqn:Hb.
  - left. exists dt. split; [|reflexivity].
    now apply (Birthday_init_Ok_iff raw (mkField dt)).
  - right. split.
    + intros dt Hr. apply (Birthday_init_Ok_iff raw (mkField dt)) in Hr.
      congruence.
    + now rewrite (Birthday_init_Raise raw e Hb).
Qed.

(** ** The book as a dictionary *)

Lemma dict_get_set_other (data : AddressBook) (key k : str) (v : Record_) :
  k <> key -> dict_get (dict_set data key v) k = dict_get data k.
Proof.
  intros Hk.
  induction data as [|[k0 w] data IH]; cbn [dict_set dict_get].
  - destruct (str_eqb_spec key k); [congruence|reflexivity].
  - destruct (str_eqb_spec k0 key) as [->|Hne]; cbn [dict_get].
    + destruct (str_eqb_spec key k); [congruence|reflexivity].
    + now rewrite IH.
Qed.

Lemma dict_set_same (data : AddressBook) (key : str) (v : Record_) :
  dict_get data key = Some v -> dict_set data key v = data.
Proof.
  induction data as [|[k w] data IH]; cbn [dict_get dict_set];
    [discriminate|].
  destruct (str_eqb_spec k key) as [->|Hne].
  - now intros [= ->].
  - intros H. now rewrite IH.
Qed.

Lemma dict_get_None_keys (data : AddressBook) (key : str) :
  dict_get data key = None <-> ~ In key (map fst data).
Proof.
  induction data as [|[k w] data IH]; cbn [dict_get map fst In].
  - tauto.
  - destruct (str_eqb_spec k key) as [->|Hne].
    + split; [discriminate|]. intros H. exfalso. apply H. now left.
    + rewrite IH. tauto.
Qed.

Lemma dict_set_keys_present (data : AddressBook) (key : str)
      (v w : Record_) :
  dict_get data key = Some w -> map fst (dict_set data key v) = map fst data.
Proof.
  induction data as [|[k w0] data IH]; cbn [dict_get dict_set map fst];
    [discriminate|].
  destruct (str_eqb_spec k key) as [->|Hne]; cbn [map fst].
  - reflexivity.
  - intros H. now rewrite IH.
Qed.

Lemma dict_set_keys_absent (data : AddressBook) (key : str) (v : Record_) :
  dict_get data key = None ->
  map fst (dict_set data key v) = map fst data ++ [key].
Proof.
  intros H. rewrite dict_set_absent by exact H. now rewrite map_app.
Qed.

Lemma dict_get_In (data : AddressBook) (key : str) (v : Record_) :
  dict_get data key = Some v -> In (key, v) data.
Proof.
  induction data as [|[k w] data IH]; cbn [dict_get In]; [discriminate|].
  destruct (str_eqb_spec k key) as [->|Hne].
  - intros [= ->]. now left.
  - intros H. right. now apply IH.
Qed.

Lemma dict_get_del_other (data : AddressBook) (key k : str) :
  k <> key -> dict_get (dict_del data key) k = dict_get data k.
Proof.
  intros Hk.
  induction data as [|[k0 w] data IH]; cbn [dict_del dict_get];
    [reflexivity|].
  destruct (str_eqb_spec k0 key) as [->|Hne]; cbn [dict_get].
  - destruct (str_eqb_spec key k); [congruence|reflexivity].
  - now rewrite IH.
Qed.

Lemma dict_get_del_same (data : AddressBook) (key : str) :
  NoDup (map fst data) -> dict_get (dict_del data key) key = None.
Proof.
  induction data as [|[k0 w] data IH]; cbn [dict_del dict_get map fst];
    [reflexivity|].
  intros Hnd. inversion Hnd as [|? ? Hnot Hrest]; subst.
  destruct (str_eqb_spec k0 key) as [->|Hne]; cbn [dict_get].
  - now apply dict_get_None_keys.
  - destruct (str_eqb_spec k0 key); [contradiction|]. now apply IH.
Qed.

(** X5.  After [add_record] the book gives the record back under its name,
    and gives what it gave before under every other name.  A name the book
    had keeps its place in the order of the book; a new name goes to the
    end. *)
Theorem add_record_then_find (record : Record_) (book : AddressBook) :
  exists book',
    add_record record book = (Ok tt, book')
    /\ find_record book' (value (name record)) = Some record
    /\ (forall k, k <> value (name record) ->
                  find_record book' k = find_record book k)
    /\ map fst book'
       = match find_record book (value (name record)) with
         | Some _ => map fst book
         | None => map fst book ++ [value (name record)]
         end.
Proof.
  eexists. split; [reflexivity|]. unfold find_record.
  split; [apply dict_get_set|]. split.
  - intros k Hk. now apply dict_get_set_other.
  - destruct (dict_get book (value (name record))) as [w|] eqn:Hg.
    + now apply (dict_set_keys_present _ _ _ w).
    + now apply dict_set_keys_absent.
Qed.

(** X6.  [delete_record] of a name the book has removes its record and
    nothing else: afterwards the name is not found and every other name
    gives what it gave.  For a name the book does not have it raises a
    [ValueError] that tells the name, and the book is as it was. *)
Theorem delete_record_removes (n : str) (book : AddressBook) :
  NoDup (map fst book) ->
  (exists r book',
      find_record book n = Some r
      /\ delete_record n book = (Ok tt, book')
      /\ find_record book' n = None
      /\ forall k, k <> n -> find_record book' k = find_record book k)
  \/ (find_record book n = None
      /\ delete_record n book
         = (Raise (ValueError (u "Запис з ім'ям '" ++ n ++ u "' не знайдено")),
            book)).
Proof.
  intros Hnd. unfold delete_record, find_record.
  destruct (dict_get book n) as [r|] eqn:Hg.
  - left. exists r, (dict_del book n).
    split; [reflexivity|]. split; [reflexivity|]. split.
    + now apply dict_get_del_same.
    + intros k Hk. now apply dict_get_del_other.
  - right. auto.
Qed.

Lemma delete_record_removes_witness :
  (exists r book',
      find_record leap_book (u "Bob") = Some r
      /\ delete_record (u "Bob") leap_book = (Ok tt, book')
      /\ find_record book' (u "Bob") = None
      /\ forall k, k <> u "Bob" ->
                   find_record book' k = find_record leap_book k)
  \/ (find_record leap_book (u "Bob") = None
      /\ delete_record (u "Bob") leap_book
         = (Raise (ValueError
                     (u "Запис з ім'ям '" ++ u "Bob" ++ u "' не знайдено")),
            leap_book)).
Proof.
  apply (delete_record_removes (u "Bob") leap_book).
  vm_compute. repeat constructor; simpl; intuition discriminate.
Defined.

(** ** What the handlers do to the book *)

Lemma input_error_snd (func : list str -> M AddressBook str)
      (args : list str) (book : AddressBook) :
  snd (input_error func args book) = snd (func args book).
Proof.
  unfold input_error.
  now destruct (func args book) as [[s|[msg| |msg|msg]] book'].
Qed.

Lemma call_snd {A} (key : str) (record : Record_) (method : M Record_ A)
      (book : AddressBook) :
  snd (call key record method book) = dict_set book key (snd (method record)).
Proof. unfold call. now destruct (method record). Qed.

Lemma add_phone_name (phone : str) (self : Record_) :
  name (snd (add_phone phone self)) = name self.
Proof.
  unfold add_phone, bindM, lift. now destruct (Phone_init phone).
Qed.

Lemma edit_phone_name (old_phone new_phone : str) (self : Record_) :
  name (snd (edit_phone old_phone new_phone self)) = name self.
Proof.
  unfold edit_phone.
  now destruct (edit_phone_loop (phones self) old_phone new_phone).
Qed.

Lemma add_birthday_name (raw : str) (self : Record_) :
  name (snd (Record_add_birthday raw self)) = name self.
Proof.
  unfold Record_add_birthday, bindM, lift. now destruct (Birthday_init raw).
Qed.

(** The book after a method was called on the record found under [n]. *)
Lemma bind_call_snd {A} (n : str) (record : Record_) (method : M Record_ A)
      (answer : str) (book : AddressBook) :
  snd ((call n record method ;;; ret answer) book)
  = dict_set book n (snd (method record)).
Proof.
  unfold bindM, call, ret. now destruct (method record) as [[a|e] r'].
Qed.

Lemma add_contact_body_changes_book (args : list str) (book : AddressBook) :
  book_change (hd [] args) book (snd (add_contact_body args book)).
Proof.
  destruct args as [|n [|phone extra]]; try apply book_unchanged.
  cbn [add_contact_body hd]. unfold bindM at 1. cbn [get].
  unfold find_record. destruct (dict_get book n) as [record|] eqn:Hg.
  - unfold bindM at 1. cbn [ret fst snd].
    destruct phone as [|c phone].
    + apply book_unchanged.
    + rewrite bind_call_snd.
      apply (book_record_changed n book record); [exact Hg|].
      apply add_phone_name.
  - unfold Record_init. destruct n as [|c0 n].
    + apply book_unchanged.
    + cbn [Name_init bind].
      unfold bindM at 1. unfold bindM at 1. cbn [lift].
      unfold bindM at 1. cbn [add_record ret fst snd name value].
      destruct phone as [|c phone].
      * apply book_record_added; [exact Hg|reflexivity].
      * rewrite bind_call_snd, dict_set_twice.
        apply book_record_added; [exact Hg|].
        now rewrite add_phone_name.
Qed.

Lemma change_contact_body_changes_book (args : list str)
      (book : AddressBook) :
  book_change (hd [] args) book (snd (change_contact_body args book)).
Proof.
  destruct args as [|n [|old_phone [|new_phone [|x extra]]]];
    try apply book_unchanged.
  cbn [change_contact_body hd]. unfold bindM at 1. cbn [get].
  unfold find_record. destruct (dict_get book n) as [record|] eqn:Hg.
  - rewrite bind_call_snd.
    apply (book_record_changed n book record); [exact Hg|].
    apply edit_phone_name.
  - apply book_unchanged.
Qed.

Lemma add_birthday_body_changes_book (args : list str) (book : AddressBook) :
  book_change (hd [] args) book (snd (add_birthday_body args book)).
Proof.
  destruct args as [|n [|b [|x extra]]]; try apply book_unchanged.
  cbn [add_birthday_body hd]. unfold bindM at 1. cbn [get].
  unfold find_record. destruct (dict_get book n) as [record|] eqn:Hg.
  - rewrite bind_call_snd.
    apply (book_record_changed n book record); [exact Hg|].
    apply add_birthday_name.
  - apply book_unchanged.
Qed.

Lemma show_phone_body_snd (args : list str) (book : AddressBook) :
  snd (show_phone_body args book) = book.
Proof.
  destruct args as [|n extra]; [reflexivity|].
  cbn [show_phone_body]. unfold bindM, get.
  now destruct (find_record book n).
Qed.

Lemma show_birthday_body_snd (fill_year : bool) (args : list str)
      (book : AddressBook) :
  snd (show_birthday_body fill_year args book) = book.
Proof.
  destruct args as [|n extra]; [reflexivity|].
  cbn [show_birthday_body]. unfold bindM, get.
  now destruct (find_record book n).
Qed.

Lemma birthdays_body_snd (fill_year : bool) (today : date)
      (args : list str) (book : AddressBook) :
  snd (birthdays_body fill_year today args book) = book.
Proof.
  unfold birthdays_body, bindM, get, lift.
  destruct (get_upcoming_birthdays book 7 today) as [[|r l]|e]; reflexivity.
Qed.

Lemma show_all_snd (fill_year : bool) (book : AddressBook) :
  snd (show_all fill_year book) = book.
Proof. unfold show_all, bindM, get. now destruct book. Qed.

(** Every handler changes the book in one of the three ways of
    [book_change], for the name that is its first argument. *)
Lemma handle_changes_book (fill_year : bool) (c : command) (today : date)
      (args : list str) (book : AddressBook) :
  book_change (hd [] args) book (snd (handle fill_year c today args book)).
Proof.
  destruct c; cbn [handle].
  - unfold add_contact. rewrite input_error_snd.
    apply add_contact_body_changes_book.
  - unfold change_contact. rewrite input_error_snd.
    apply change_contact_body_changes_book.
  - unfold show_phone. rewrite input_error_snd, show_phone_body_snd.
    apply book_unchanged.
  - rewrite show_all_snd. apply book_unchanged.
  - unfold add_birthday. rewrite input_error_snd.
    apply add_birthday_body_changes_book.
  - unfold show_birthday. rewrite input_error_snd, show_birthday_body_snd.
    apply book_unchanged.
  - unfold birthdays. rewrite input_error_snd, birthdays_body_snd.
    apply book_unchanged.
Qed.

Lemma book_ok_lookup (book : AddressBook) (n : str) (r : Record_) :
  book_ok book -> dict_get book n = Some r -> value (name r) = n.
Proof.
  intros [_ Hnames] Hg. apply dict_get_In in Hg.
  rewrite Forall_forall in Hnames. exact (Hnames _ Hg).
Qed.

Lemma dict_set_book_ok (book : AddressBook) (key : str) (v : Record_) :
  book_ok book -> value (name v) = key -> book_ok (dict_set book key v).
Proof.
  intros [Hnd Hnames] Hv. split.
  - destruct (dict_get book key) as [w|] eqn:Hg.
    + now rewrite (dict_set_keys_present _ _ _ w Hg).
    + rewrite (dict_set_keys_absent _ _ _ Hg).
      apply dict_get_None_keys in Hg.
      apply NoDup_app; [exact Hnd|repeat constructor; intros []|].
      intros k Hin [<-|[]]. contradiction.
  - clear Hnd. induction book as [|[k w] book IH]; cbn [dict_set].
    + repeat constructor. exact Hv.
    + apply Forall_cons_iff in Hnames as [Hkw Hrest].
      destruct (str_eqb_spec k key) as [Heq|Hne]; constructor; auto.
      cbn [fst snd]. congruence.
Qed.

Lemma book_change_ok (n : str) (book book' : AddressBook) :
  book_change n book book' -> book_ok book -> book_ok book'.
Proof.
  intros [|r r' Hg Hname|r' Hg Hname] Hok.
  - exact Hok.
  - apply dict_set_book_ok; [exact Hok|].
    rewrite Hname. now apply (book_ok_lookup book).
  - now apply dict_set_book_ok.
Qed.

(** X7.  Every handler keeps the book a dictionary of records kept under
    their own names: whatever the command and its arguments, if no name
    occurs twice in the book and each record is under the name it holds,
    the same is true after the call. *)
Theorem handle_keeps_book_ok (fill_year : bool) (c : command)
        (today : date) (args : list str) (book : AddressBook) :
  book_ok book -> book_ok (snd (handle fill_year c today args book)).
Proof.
  apply (book_change_ok (hd [] args)), handle_changes_book.
Qed.

Lemma handle_keeps_book_ok_witness :
  book_ok (snd (handle false cmd_add (mkdate 2023 2 25)
                       [u "Eve"; u "123"] leap_book)).
Proof.
  apply (handle_keeps_book_ok false cmd_add (mkdate 2023 2 25)
                              [u "Eve"; u "123"] leap_book).
  split.
  - vm_compute. repeat constructor; simpl; intuition discriminate.
  - repeat constructor.
Defined.

(** X8.  The handlers that only answer ([show_phone], [show_birthday],
    [birthdays], [show_all]) leave the book exactly as it was, whatever
    their arguments and whatever they answer, error answers included. *)
Theorem queries_leave_book (fill_year : bool) (today : date)
        (args : list str) (book : AddressBook) :
  snd (show_phone args book) = book
  /\ snd (show_birthday fill_year args book) = book
  /\ snd (birthdays fill_year today args book) = book
  /\ snd (show_all fill_year book) = book.
Proof.
  unfold show_phone, show_birthday, birthdays.
  rewrite !input_error_snd.
  auto using show_phone_body_snd, show_birthday_body_snd,
    birthdays_body_snd, show_all_snd.
Qed.


Lemma book_change_other (n : str) (book book' : AddressBook) :
  book_change n book book' ->
  forall k, k <> n -> dict_get book' k = dict_get book k.
Proof.
  intros [|r r' Hg Hname|r' Hg Hname] k Hk;
    [reflexivity| |]; now apply dict_get_set_other.
Qed.

Lemma book_change_keys (n : str) (book book' : AddressBook) :
  book_change n book book' ->
  map fst book' = map fst book
  \/ (dict_get book n = None /\ map fst book' = map fst book ++ [n]).
Proof.
  intros [|r r' Hg Hname|r' Hg Hname].
  - now left.
  - left. now apply (dict_set_keys_present _ _ _ r).
  - right. split; [exact Hg|]. now apply dict_set_keys_absent.
Qed.

Lemma change_contact_body_keys (args : list str) (book : AddressBook) :
  map fst (snd (change_contact_body args book)) = map fst book.
Proof.
  destruct args as [|n [|old_phone [|new_phone [|x extra]]]];
    try reflexivity.
  cbn [change_contact_body]. unfold bindM at 1. cbn [get].
  unfold find_record. destruct (dict_get book n) as [record|] eqn:Hg;
    [|reflexivity].
  rewrite bind_call_snd. now apply (dict_set_keys_present _ _ _ record).
Qed.

Lemma add_birthday_body_keys (args : list str) (book : AddressBook) :
  map fst (snd (add_birthday_body args book)) = map fst book.
Proof.
  destruct args as [|n [|b [|x extra]]]; try reflexivity.
  cbn [add_birthday_body]. unfold bindM at 1. cbn [get].
  unfold find_record. destruct (dict_get book n) as [record|] eqn:Hg;
    [|reflexivity].
  rewrite bind_call_snd. now apply (dict_set_keys_present _ _ _ record).
Qed.

(** X9.  A handler call touches at most the record named by its first
    argument: every other name gives the record it gave before.  No name is
    ever removed, the names keep their order, and only [add_contact] can
    add one (that of its first argument, at the end). *)
Theorem handle_touches_one_record (fill_year : bool) (c : command)
        (today : date) (args : list str) (book : AddressBook) :
  (forall k, k <> hd [] args ->
             find_record (snd (handle fill_year c today args book)) k
             = find_record book k)
  /\ (map fst (snd (handle fill_year c today args book)) = map fst book
      \/ (c = cmd_add /\ find_record book (hd [] args) = None
          /\ map fst (snd (handle fill_year c today args book))
             = map fst book ++ [hd [] args])).
Proof.
  unfold find_record.
  pose proof (handle_changes_book fill_year c today args book) as Hch.
  split; [now apply book_change_other|].
  destruct c; cbn [handle] in *.
  - destruct (book_change_keys _ _ _ Hch) as [Hk|[Hg Hk]]; auto.
  - left. unfold change_contact. rewrite input_error_snd.
    apply change_contact_body_keys.
  - left. unfold show_phone.
    now rewrite input_error_snd, show_phone_body_snd.
  - left. now rewrite show_all_snd.
  - left. unfold add_birthday. rewrite input_error_snd.
    apply add_birthday_body_keys.
  - left. unfold show_birthday.
    now rewrite input_error_snd, show_birthday_body_snd.
  - left. unfold birthdays.
    now rewrite input_error_snd, birthdays_body_snd.
Qed.

Lemma add_birthday_Raise_leaves (raw : str) (self : Record_) (e : exn) :
  fst (Record_add_birthday raw self) = Raise e ->
  snd (Record_add_birthday raw self) = self.
Proof.
  unfold Record_add_birthday, bindM, lift.
  destruct (Birthday_init raw); [discriminate|reflexivity].
Qed.

(** X13.  [change_contact] and [add_birthday] validate before they change
    anything: a call that does not give the answer of success leaves the
    book exactly as it was (too few or too many arguments, a contact that is
    not there, an old phone the contact does not have, a date that is not
    one). *)
Theorem failed_change_leaves_book (args : list str) (book : AddressBook) :
  (fst (change_contact args book) = Ok (u "Номер телефону змінено")
   \/ snd (change_contact args book) = book)
  /\ (fst (add_birthday args book) = Ok (u "День народження додано")
      \/ snd (add_birthday args book) = book).
Proof.
  split.
  - destruct args as [|n [|old_phone [|new_phone [|x extra]]]];
      try (right; reflexivity).
    unfold change_contact, input_error, change_contact_body, bindM, get,
      call, ret, find_record.
    cbv beta iota. destruct (dict_get book n) as [record|] eqn:Hg;
      [|right; reflexivity].
    destruct (edit_phone_outcome old_phone new_phone record)
      as [(ps & _ & _ & ->)|[_ ->]].
    + left. reflexivity.
    + right. cbn [snd]. now apply dict_set_same.
  - destruct args as [|n [|b [|x extra]]]; try (right; reflexivity).
    unfold add_birthday, input_error, add_birthday_body, bindM, get,
      call, ret, find_record.
    cbv beta iota. destruct (dict_get book n) as [record|] eqn:Hg;
      [|right; reflexivity].
    pose proof (add_birthday_Raise_leaves b record) as Hleave.
    pose proof (add_birthday_only_ValueError b record) as Honly.
    destruct (Record_add_birthday b record) as [[[]|e] record'];
      cbn [fst snd only_ValueError] in *.
    + left. reflexivity.
    + right. destruct e; try contradiction.
      rewrite (Hleave _ eq_refl). cbn [snd]. now apply dict_set_same.
Qed.

(** ** How the handlers compose *)

Lemma ten_decimal_digits_nonempty (s : str) : ten_decimal_digits s -> s <> [].
Proof. intros [Hlen _] ->. discriminate. Qed.

(** [add_contact] with a name that is not empty and a phone. *)
Lemma add_contact_valid (n phone : str) (extra : list str)
      (book : AddressBook) :
  n <> [] -> ten_decimal_digits phone ->
  add_contact (n :: phone :: extra) book
  = match find_record book n with
    | None =>
        (Ok (u "Контакт додано."),
         dict_set book n (mkRecord (mkField n) [mkField phone] None))
    | Some r =>
        (Ok (u "Контакт оновлено."),
         dict_set book n
                  (mkRecord (name r) (phones r ++ [mkField phone])
                            (birthday r)))
    end.
Proof.
  intros Hn Hphone.
  pose proof (ten_decimal_digits_nonempty phone Hphone) as Hne.
  destruct n as [|c n]; [congruence|].
  destruct phone as [|p phone]; [congruence|].
  unfold add_contact, input_error, add_contact_body, bindM, get, call,
    add_phone, add_record, Record_init, bindM, lift, ret, find_record.
  cbv beta iota.
  destruct (dict_get book (c :: n)) as [r|] eqn:Hg.
  - cbn [fst snd]. rewrite (Phone_init_valid _ Hphone). reflexivity.
  - cbn [Name_init bind fst snd name value].
    rewrite (Phone_init_valid _ Hphone). cbv beta iota.
    now rewrite dict_set_twice.
Qed.

(** X10.  [add_contact] with a name that is not empty and a phone of ten
    digits: for a new name it answers that the contact was added and the
    book then has a record of that name with exactly that phone and no
    birthday; for a name the book has it answers that the contact was
    updated and the phone is added after the phones of the record, whose
    birthday stays.  No other name is affected. *)
Theorem add_contact_adds_phone (n phone : str) (extra : list str)
        (book : AddressBook) :
  n <> [] -> ten_decimal_digits phone ->
  exists answer book' r',
    add_contact (n :: phone :: extra) book = (Ok answer, book')
    /\ find_record book' n = Some r'
    /\ (forall k, k <> n -> find_record book' k = find_record book k)
    /\ match find_record book n with
       | None =>
           answer = u "Контакт додано."
           /\ r' = mkRecord (mkField n) [mkField phone] None
       | Some r =>
           answer = u "Контакт оновлено."
           /\ r' = mkRecord (name r) (phones r ++ [mkField phone])
                            (birthday r)
       end.
Proof.
  intros Hn Hphone. rewrite (add_contact_valid n phone extra book Hn Hphone).
  unfold find_record.
  destruct (dict_get book n) as [r|] eqn:Hg; do 3 eexists;
    (split; [reflexivity|]);
    (split; [apply dict_get_set|]);
    (split; [intros k Hk; now apply dict_get_set_other|]); auto.
Qed.

Lemma add_contact_adds_phone_witness :
  exists answer book' r',
    add_contact [u "Ann"; u "0671234567"] leap_book = (Ok answer, book')
    /\ find_record book' (u "Ann") = Some r'
    /\ (forall k, k <> u "Ann" ->
                  find_record book' k = find_record leap_book k)
    /\ match find_record leap_book (u "Ann") with
       | None =>
           answer = u "Контакт додано."
           /\ r' = mkRecord (mkField (u "Ann")) [mkField (u "0671234567")]
                            None
       | Some r =>
           answer = u "Контакт оновлено."
           /\ r' = mkRecord (name r)
                            (phones r ++ [mkField (u "0671234567")])
                            (birthday r)
       end.
Proof.
  apply (add_contact_adds_phone (u "Ann") (u "0671234567") [] leap_book).
  - discriminate.
  - split; [reflexivity|]. repeat constructor.
Defined.

(** X11.  After [add_contact] has added a phone to a name, [show_phone] of
    that name lists the phones the contact had before, in their order, and
    the new phone last. *)
Theorem add_then_show_phone (n phone : str) (extra : list str)
        (book : AddressBook) :
  n <> [] -> ten_decimal_digits phone ->
  fst (show_phone [n] (snd (add_contact (n :: phone :: extra) book)))
  = Ok (u "Телефони для " ++ n ++ u ": "
        ++ join (u ", ")
                (match find_record book n with
                 | Some r => map value (phones r)
                 | None => []
                 end ++ [phone])).
Proof.
  intros Hn Hphone. rewrite (add_contact_valid n phone extra book Hn Hphone).
  unfold show_phone, input_error, show_phone_body, bindM, get, ret,
    find_record.
  cbv beta iota.
  destruct (dict_get book n) as [r|] eqn:Hg; cbn [snd];
    rewrite dict_get_set; cbn [fst phones map].
  - now rewrite map_app.
  - reflexivity.
Qed.

Lemma add_then_show_phone_witness :
  fst (show_phone [u "Ann"]
         (snd (add_contact [u "Ann"; u "0671234567"] leap_book)))
  = Ok (u "Телефони для " ++ u "Ann" ++ u ": "
        ++ join (u ", ")
                (match find_record leap_book (u "Ann") with
                 | Some r => map value (phones r)
                 | None => []
                 end ++ [u "0671234567"])).
Proof.
  apply (add_then_show_phone (u "Ann") (u "0671234567") [] leap_book).
  - discriminate.
  - split; [reflexivity|]. repeat constructor.
Defined.

(** A date of the calendar is written by [strftime] as the string
    [DD.MM.YYYY] it was read from. *)
Lemma strftime_ddmmyyyy (fill_year : bool) (s : str) (y m d : Z) :
  ddmmyyyy s y m d -> valid_date y m d -> fill_year = true \/ 1000 <= y ->
  strftime fill_year (mkdate y m d) = s.
Proof.
  intros (d1 & d2 & m1 & m2 & y1 & y2 & y3 & y4 & -> & Hdig & -> & -> & ->)
         Hv Hfill.
  cbn [forallb] in Hdig.
  repeat (apply andb_prop in Hdig as [?%isascii_digit_range Hdig]).
  unfold strftime. cbn [year month day].
  rewrite strftime_Y_digits by (unfold valid_date in Hv; lia || tauto).
  rewrite !two_digits_of, digits4_of by assumption. reflexivity.
Qed.

(** X12.  After [add_birthday] has been given, for a contact of the book, a
    date written [DD.MM.YYYY], [show_birthday] of that contact answers with
    the same string (for a year before 1000, where the C library fills the
    year with zeros). *)
Theorem add_birthday_then_show (fill_year : bool) (n s : str) (y m d : Z)
        (r : Record_) (book : AddressBook) :
  find_record book n = Some r ->
  ddmmyyyy s y m d -> valid_date y m d -> fill_year = true \/ 1000 <= y ->
  fst (add_birthday [n; s] book) = Ok (u "День народження додано")
  /\ fst (show_birthday fill_year [n] (snd (add_birthday [n; s] book)))
     = Ok (u "День народження: " ++ s).
Proof.
  intros Hfind Hs Hv Hfill.
  assert (Hb : Birthday_init s = Ok (mkField (mkdate y m d))).
  { apply Birthday_init_Ok_iff. cbn [value]. now apply ddmmyyyy_reads_as. }
  unfold find_record in Hfind.
  unfold add_birthday, show_birthday, input_error, add_birthday_body,
    show_birthday_body, bindM, get, call, ret, find_record,
    Record_add_birthday, bindM, lift.
  cbv beta iota. rewrite Hfind, Hb. cbv beta iota. cbn [fst snd].
  split; [reflexivity|].
  rewrite dict_get_set. cbn [fst].
  unfold Record_show_birthday, set_birthday, Birthday_str.
  cbn [birthday value].
  now rewrite (strftime_ddmmyyyy fill_year s y m d Hs Hv Hfill).
Qed.

Lemma add_birthday_then_show_witness :
  fst (add_birthday [u "Ann"; u "15.03.1990"] leap_book)
  = Ok (u "День народження додано")
  /\ fst (show_birthday false [u "Ann"]
            (snd (add_birthday [u "Ann"; u "15.03.1990"] leap_book)))
     = Ok (u "День народження: " ++ u "15.03.1990").
Proof.
  apply (add_birthday_then_show false (u "Ann") (u "15.03.1990") 1990 3 15
                                ann_feb_29 leap_book).
  - reflexivity.
  - exists (ch "1"), (ch "5"), (ch "0"), (ch "3"),
      (ch "1"), (ch "9"), (ch "9"), (ch "0").
    repeat split; reflexivity.
  - unfold valid_date. vm_compute. intuition discriminate.
  - right. lia.
Defined.

(** ** The query for the coming birthdays *)

Lemma upcoming_loop_cases (days : Z) (today : date) :
  forall (records upcoming : list Record_),
    (exists msg,
        upcoming_loop records days today upcoming = Raise (ValueError msg))
    \/ upcoming_loop records days today upcoming
       = Ok (upcoming ++ filter (qualifies days today) records).
Proof.
  induction records as [|r records IH]; intros upcoming;
    cbn [upcoming_loop filter].
  - right. now rewrite app_nil_r.
  - unfold qualifies at 1. destruct (birthday r) as [b|] eqn:Hb; [|apply IH].
    destruct (replace_year (value b) (year today)) as [bday|e] eqn:Hr.
    + apply date_new_Ok in Hr as [-> _]. cbn [bind].
      unfold sub_days, days_until. cbn [toordinal year month day].
      fold (toordinal today).
      destruct (_ && _)%bool.
      * destruct (IH (upcoming ++ [r])) as [Hraise| ->]; [now left|].
        right. now rewrite <- app_assoc.
      * apply IH.
    + left. apply date_new_Raise in Hr as [msg ->]. cbn [bind]. eauto.
Qed.

(** X14.  [get_upcoming_birthdays] either raises a [ValueError] or returns
    exactly the records that have a birthday falling, in the year of today,
    from 0 to [days] days after today, in the order of the book; it does
    return when every birthday of the book is a date of the year of today
    too. *)
Theorem get_upcoming_birthdays_result (data : AddressBook) (days : Z)
        (today : date) :
  ((exists msg,
       get_upcoming_birthdays data days today = Raise (ValueError msg))
   \/ get_upcoming_birthdays data days today
      = Ok (filter (qualifies days today) (dict_values data)))
  /\ ((forall r b, In r (dict_values data) -> birthday r = Some b ->
                   valid_date (year today) (month (value b))
                              (day (value b))) ->
      get_upcoming_birthdays data days today
      = Ok (filter (qualifies days today) (dict_values data))).
Proof.
  split.
  - unfold get_upcoming_birthdays.
    exact (upcoming_loop_cases days today (dict_values data) []).
  - apply get_upcoming_birthdays_filter.
Qed.




(** X20.  When a record of the book has its birthday on 29 February and the
    year of today is not a leap year, the command [birthdays] answers with
    an error string for the whole book, whatever the other records are, and
    leaves the book as it was. *)
Theorem birthdays_answers_error_on_leap_day
        (fill_year : bool) (today : date) (args : list str)
        (book : AddressBook) (record : Record_) (b : Birthday) :
  In record (dict_values book) -> birthday record = Some b ->
  month (value b) = 2 -> day (value b) = 29 ->
  is_leap (year today) = false ->
  exists msg,
    birthdays fill_year today args book = (Ok (u "Помилка: " ++ msg), book).
Proof.
  intros Hin Hb Hm Hd Hleap.
  destruct (upcoming_loop_raises 7 today record b Hb Hm Hd Hleap
                                 (dict_values book) [] Hin) as [msg Hr].
  exists msg.
  unfold birthdays, input_error, birthdays_body, bindM, get, lift,
    get_upcoming_birthdays.
  cbv beta iota. now rewrite Hr.
Qed.

Lemma birthdays_answers_error_on_leap_day_witness :
  exists msg,
    birthdays false (mkdate 2023 2 25) [] leap_book
    = (Ok (u "Помилка: " ++ msg), leap_book).
Proof.
  apply (birthdays_answers_error_on_leap_day
           false (mkdate 2023 2 25) [] leap_book ann_feb_29
           (mkField (mkdate 2000 2 29))).
  - right. left. reflexivity.
  - reflexivity.
  - reflexivity.
  - reflexivity.
  - reflexivity.
Defined.

(** ** Writing a birthday and reading it back *)

Lemma digit_of_value (v : Z) :
  0 <= v <= 9 ->
  isascii_digit (Z.to_N (48 + v)) = true /\ digit (Z.to_N (48 + v)) = v.
Proof.
  intros Hv. unfold isascii_digit, digit. split.
  - apply andb_true_intro. split; apply N.leb_le; lia.
  - lia.
Qed.

Lemma strftime_is_ddmmyyyy (fill_year : bool) (y m d : Z) :
  valid_date y m d -> fill_year = true \/ 1000 <= y ->
  ddmmyyyy (strftime fill_year (mkdate y m d)) y m d.
Proof.
  intros (Hy & Hm & Hd) Hfill.
  pose proof (days_in_month_le_31 y m) as H31.
  unfold strftime. cbn [year month day].
  rewrite strftime_Y_digits by lia || tauto.
  unfold two_digits, digits4.
  destruct (digit_of_value (d / 10)) as [A1 B1];
    [Z.div_mod_to_equations; lia|].
  destruct (digit_of_value (d mod 10)) as [A2 B2];
    [Z.div_mod_to_equations; lia|].
  destruct (digit_of_value (m / 10)) as [A3 B3];
    [Z.div_mod_to_equations; lia|].
  destruct (digit_of_value (m mod 10)) as [A4 B4];
    [Z.div_mod_to_equations; lia|].
  destruct (digit_of_value (y / 1000)) as [A5 B5];
    [Z.div_mod_to_equations; lia|].
  destruct (digit_of_value (y / 100 mod 10)) as [A6 B6];
    [Z.div_mod_to_equations; lia|].
  destruct (digit_of_value (y / 10 mod 10)) as [A7 B7];
    [Z.div_mod_to_equations; lia|].
  destruct (digit_of_value (y mod 10)) as [A8 B8];
    [Z.div_mod_to_equations; lia|].
  do 8 eexists. split; [reflexivity|]. split.
  - cbn [forallb]. rewrite A1, A2, A3, A4, A5, A6, A7, A8. reflexivity.
  - rewrite B1, B2, B3, B4, B5, B6, B7, B8.
    repeat split; Z.div_mod_to_equations; lia.
Qed.

(** X19.  What [Birthday.__str__] writes for a date of the calendar is read
    back by [Birthday] as the same date, for the years from 1000 on (and
    for every year where the C library fills the year with zeros). *)
Theorem Birthday_str_reads_back (fill_year : bool) (y m d : Z) :
  valid_date y m d -> fill_year = true \/ 1000 <= y ->
  Birthday_init (Birthday_str fill_year (mkField (mkdate y m d)))
  = Ok (mkField (mkdate y m d)).
Proof.
  intros Hv Hfill. apply Birthday_init_Ok_iff. cbn [value].
  unfold Birthday_str. cbn [value].
  apply ddmmyyyy_reads_as; [|exact Hv].
  now apply strftime_is_ddmmyyyy.
Qed.

Lemma Birthday_str_reads_back_witness :
  Birthday_init (Birthday_str false (mkField (mkdate 2000 2 29)))
  = Ok (mkField (mkdate 2000 2 29)).
Proof.
  apply (Birthday_str_reads_back false 2000 2 29).
  - unfold valid_date. vm_compute. intuition discriminate.
  - right. lia.
Defined.

(** ** The command loop *)

Lemma split_from_concat (s w : str) :
  concat (split_from s w) = w ++ filter (fun c => negb (isspace c)) s.
Proof.
  revert w. induction s as [|c s IH]; intros w; cbn [split_from filter].
  - destruct w; cbn [concat]; now rewrite ?app_nil_r.
  - destruct (isspace c); cbn [negb].
    + destruct w as [|x w]; [apply IH|].
      cbn [concat]. rewrite IH. reflexivity.
    + rewrite IH, <- app_assoc. reflexivity.
Qed.

Lemma split_from_words (s w : str) :
  forallb (fun c => negb (isspace c)) w = true ->
  Forall word (split_from s w).
Proof.
  revert w. induction s as [|c s IH]; intros w Hw; cbn [split_from].
  - destruct w as [|x w]; constructor; [|constructor].
    split; [discriminate|exact Hw].
  - destruct (isspace c) eqn:Hc.
    + destruct w as [|x w]; [now apply IH|].
      constructor; [split; [discriminate|exact Hw]|now apply IH].
    + apply IH. rewrite forallb_app, Hw. cbn [forallb]. now rewrite Hc.
Qed.

Lemma lstrip_ws_filter (s : str) :
  filter (fun c => negb (isspace c)) (lstrip_ws s)
  = filter (fun c => negb (isspace c)) s.
Proof.
  induction s as [|c s IH]; [reflexivity|]. cbn [lstrip_ws].
  destruct (isspace c) eqn:Hc; [|reflexivity].
  cbn [filter]. now rewrite Hc.
Qed.

Lemma filter_rev_eq {A} (f : A -> bool) (l : list A) :
  filter f (rev l) = rev (filter f l).
Proof.
  induction l as [|x l IH]; [reflexivity|]. cbn [rev filter].
  rewrite filter_app, IH. cbn [filter].
  destruct (f x); cbn [rev]; now rewrite ?app_nil_r.
Qed.

Lemma strip_filter (s : str) :
  filter (fun c => negb (isspace c)) (strip s)
  = filter (fun c => negb (isspace c)) s.
Proof.
  unfold strip.
  now rewrite filter_rev_eq, lstrip_ws_filter, filter_rev_eq, rev_involutive,
    lstrip_ws_filter.
Qed.

Lemma blank_filter (s : str) :
  blank s <-> filter (fun c => negb (isspace c)) s = [].
Proof.
  unfold blank. induction s as [|c s IH]; cbn [forallb filter]; [tauto|].
  destruct (isspace c); cbn [negb andb]; [exact IH|].
  split; discriminate.
Qed.

(** What [parse_input] gives: the words of the line. *)
Lemma parse_input_cases (user_input : str) :
  (blank user_input
   /\ parse_input user_input
      = Raise (ValueError
                 (u "not enough values to unpack (expected at least 1, got 0)")))
  \/ (exists w args,
         parse_input user_input = Ok (w, args)
         /\ Forall word (w :: args)
         /\ concat (w :: args)
            = filter (fun c => negb (isspace c)) user_input).
Proof.
  unfold parse_input.
  pose proof (split_from_concat (strip user_input) []) as Hc.
  pose proof (split_from_words (strip user_input) [] eq_refl) as Hw.
  fold (split (strip user_input)) in Hc, Hw.
  rewrite strip_filter in Hc. cbn [app] in Hc.
  destruct (split (strip user_input)) as [|w args].
  - left. split; [|reflexivity]. apply blank_filter. now rewrite <- Hc.
  - right. exists w, args. auto.
Qed.


(** X17.  A line that is empty or all white space ends [main]: the
    [ValueError] of [parse_input] is caught by nothing, so the loop stops
    there with that exception, without an answer, and the lines after it
    are not read. *)
Theorem main_loop_stops_at_blank_line
        (fill_year : bool) (today : date) (user_input : str)
        (rest : list (date * str)) (book : AddressBook) (out : list event) :
  blank user_input ->
  main_loop fill_year ((today, user_input) :: rest) book out
  = (out ++ [Asked (u "Введіть команду: ")], book,
     Uncaught
       (ValueError
          (u "not enough values to unpack (expected at least 1, got 0)"))).
Proof.
  intros Hb. cbn [main_loop].
  destruct (parse_input_cases user_input)
    as [[_ ->]|(w & args & Hp & Hw & Hc)]; [reflexivity|].
  exfalso. apply blank_filter in Hb. rewrite Hb in Hc.
  apply Forall_cons_iff in Hw as [[Hne _] _].
  destruct w; [congruence|discriminate].
Qed.

Lemma main_loop_stops_at_blank_line_witness :
  main_loop false [(mkdate 2023 2 25, u "   "); (mkdate 2023 2 25, u "all")]
            leap_book []
  = ([] ++ [Asked (u "Введіть команду: ")], leap_book,
     Uncaught
       (ValueError
          (u "not enough values to unpack (expected at least 1, got 0)"))).
Proof.
  apply (main_loop_stops_at_blank_line
           false (mkdate 2023 2 25) (u "   ")
           [(mkdate 2023 2 25, u "all")] leap_book []).
  reflexivity.
Defined.

(** Every handler answers (with helper lemmas of the handlers). *)
Lemma handle_answers (fill_year : bool) (c : command) (today : date)
      (args : list str) (book : AddressBook) :
  exists answer, fst (handle fill_year c today args book) = Ok answer.
Proof.
  assert (H : forall func,
             handled (fst (func args book)) ->
             exists answer, fst (input_error func args book) = Ok answer).
  { intros func Hh. destruct (input_error_returns func args book Hh)
      as (s & book' & ->). cbn [fst]. eauto. }
  destruct c; cbn [handle].
  - apply H, add_contact_body_handled.
  - apply H, change_contact_body_handled.
  - apply H, show_phone_body_handled.
  - destruct (show_all_returns fill_year book) as [s ->]. cbn [fst]. eauto.
  - apply H, add_birthday_body_handled.
  - apply (H (show_birthday_body fill_year)), show_birthday_body_handled.
  - apply (H (birthdays_body fill_year today)), birthdays_body_handled.
Qed.

(** X18.  [main] can end in three ways only: with [close] or [exit], at the
    end of the input, or with the [ValueError] of a line that is empty or
    all white space.  No command, whatever its arguments, makes an
    exception leave the loop. *)
Theorem main_loop_endings (fill_year : bool) (inputs : list (date * str)) :
  forall (book : AddressBook) (out : list event),
    snd (main_loop fill_year inputs book out) = Closed
    \/ snd (main_loop fill_year inputs book out) = EndOfInput
    \/ (snd (main_loop fill_year inputs book out)
        = Uncaught
            (ValueError
               (u "not enough values to unpack (expected at least 1, got 0)"))
        /\ Exists (fun i => blank (snd i)) inputs).
Proof.
  induction inputs as [|[today user_input] rest IH]; intros book out;
    cbn [main_loop].
  - right. left. reflexivity.
  - assert (Hrest : forall book' out',
               snd (main_loop fill_year rest book' out') = Closed
               \/ snd (main_loop fill_year rest book' out') = EndOfInput
               \/ (snd (main_loop fill_year rest book' out')
                   = Uncaught
                       (ValueError
                          (u "not enough values to unpack (expected at least 1, got 0)"))
                   /\ Exists (fun i => blank (snd i))
                             ((today, user_input) :: rest))).
    { intros book' out'. destruct (IH book' out') as [H|[H|[H He]]];
        [now left|now right; left|].
      right. right. split; [exact H|]. now apply Exists_cons_tl. }
    destruct (parse_input_cases user_input)
      as [[Hb ->]|(w & args & -> & _ & _)].
    + right. right. split; [reflexivity|]. now left.
    + destruct (_ || _)%bool; [left; reflexivity|].
      destruct (str_eqb w (u "hello")); [apply Hrest|].
      destruct (command_of w) as [c|]; [|apply Hrest].
      destruct (handle_answers fill_year c today args book) as [answer Ha].
      destruct (handle fill_year c today args book) as [[a|e] book'];
        cbn [fst] in Ha; [apply Hrest|discriminate].
Qed.

Lemma handle_keys (fill_year : bool) (c : command) (today : date)
      (args : list str) (book : AddressBook) :
  map fst (snd (handle fill_year c today args book)) = map fst book
  \/ (c = cmd_add /\ dict_get book (hd [] args) = None
      /\ map fst (snd (handle fill_year c today args book))
         = map fst book ++ [hd [] args]).
Proof.
  pose proof (handle_changes_book fill_year c today args book) as Hch.
  destruct c; cbn [handle] in *.
  - destruct (book_change_keys _ _ _ Hch) as [Hk|[Hg Hk]]; auto.
  - left. unfold change_contact. rewrite input_error_snd.
    apply change_contact_body_keys.
  - left. unfold show_phone.
    now rewrite input_error_snd, show_phone_body_snd.
  - left. now rewrite show_all_snd.
  - left. unfold add_birthday. rewrite input_error_snd.
    apply add_birthday_body_keys.
  - left. unfold show_birthday.
    now rewrite input_error_snd, show_birthday_body_snd.
  - left. unfold birthdays.
    now rewrite input_error_snd, birthdays_body_snd.
Qed.

Lemma handle_keeps_words (fill_year : bool) (c : command) (today : date)
      (args : list str) (book : AddressBook) :
  Forall word args -> Forall word (map fst book) ->
  Forall word (map fst (snd (handle fill_year c today args book))).
Proof.
  intros Hargs Hbook.
  destruct (handle_keys fill_year c today args book)
    as [->|(-> & _ & Hk)]; [exact Hbook|].
  destruct args as [|n args].
  - exact Hbook.
  - rewrite Hk. apply Forall_app. split; [exact Hbook|].
    apply Forall_cons_iff in Hargs as [Hn _]. now constructor.
Qed.

Lemma main_loop_book_invariant (fill_year : bool)
      (inputs : list (date * str)) :
  forall (book : AddressBook) (out : list event),
    book_ok book -> Forall word (map fst book) ->
    book_ok (snd (fst (main_loop fill_year inputs book out)))
    /\ Forall word (map fst (snd (fst (main_loop fill_year inputs book out)))).
Proof.
  induction inputs as [|[today user_input] rest IH]; intros book out Hok Hw;
    cbn [main_loop]; [now split|].
  destruct (parse_input_cases user_input)
    as [[Hb ->]|(w & args & -> & Hwords & _)]; [now split|].
  destruct (_ || _)%bool; [now split|].
  destruct (str_eqb w (u "hello")); [now apply IH|].
  destruct (command_of w) as [c|]; [|now apply IH].
  apply Forall_cons_iff in Hwords as [_ Hargs].
  pose proof (handle_changes_book fill_year c today args book) as Hch.
  pose proof (handle_keeps_words fill_year c today args book Hargs Hw) as Hk.
  apply (book_change_ok _ _ _ Hch) in Hok.
  destruct (handle fill_year c today args book) as [[a|e] book'];
    cbn [snd] in *; [now apply IH|now split].
Qed.

(** X21.  Whatever lines [main] is given, the book it ends with is a
    dictionary of records kept under their own names, no name twice, and
    every name in it is a word: not empty and without white space. *)
Theorem main_book_invariant (fill_year : bool)
        (inputs : list (date * str)) :
  book_ok (snd (fst (main fill_year inputs)))
  /\ Forall word (map fst (snd (fst (main fill_year inputs)))).
Proof.
  unfold main. apply main_loop_book_invariant.
  - split; constructor.
  - constructor.
Qed.




